(** * aiff-enrichment2.py: retrying annotator, pairwise comparator, driver

    A shallow embedding of [src/script/aiff-enrichment2.py].  The script
    talks to two pieces of the outside world: the text-generation client
    ([client.messages.create]) and the file that holds the table
    ([pd.read_csv] / [df.to_csv]).  Both are made explicit in a [World]
    that every function threads: a chronological log of the requests and
    sleeps performed so far, the files that exist, and how long the
    platform can sleep.  Python exceptions are an explicit outcome of
    every computation. *)

From stdpp Require Import base option list strings gmap.
From Stdlib Require Import ZArith Lia Ascii.

Local Open Scope string_scope.
Local Open Scope list_scope.
Local Open Scope Z_scope.

(** ** Python values and exceptions *)

(** The objects that flow through the script: text, and [None] (what a
    Python function returns when it falls off its end). *)
Inductive Value : Type :=
  | VNone
  | VStr (s : string).

(** [f"{v}"]: how a value is spliced into an f-string. *)
Definition format (v : Value) : string :=
  match v with
  | VNone => "None"
  | VStr s => s
  end.

(** The exceptions that can leave the functions of the script. *)
Inductive PyExn : Type :=
  | ValueError (msg : string)
  | KeyError (key : string)
  | IndexError (msg : string)
  | FileNotFoundError (path : string)
  | OverflowError (msg : string)
  | OSError (msg : string).

Inductive Outcome (A : Type) : Type :=
  | Ret (a : A)
  | Raise (e : PyExn).
Arguments Ret {A} a.
Arguments Raise {A} e.

(** ** The generation capability *)

(** One entry of the [messages] argument. *)
Record Message : Type := mkMessage {
  role : string;
  content : string
}.

(** The keyword arguments of [client.messages.create]. *)
Record Request : Type := mkRequest {
  model : string;
  max_tokens : Z;
  messages : list Message
}.

(** What one call of [client.messages.create] does: it hands back a
    message whose [.content] is the text, or it raises an [Exception]
    whose [str()] is the text. *)
Inductive Response : Type :=
  | Returned (text : string)
  | Raised (text : string).

(** Everything observable that the script does to the outside, in the
    order it happens. *)
Inductive Event : Type :=
  | EvCreate (req : Request)
  | EvSleep (seconds : Z).

(** The client is opaque: its answer may depend on the request and on all
    that happened before (earlier requests, time slept). *)
Definition Client : Type := list Event -> Request -> Response.

(** ** Tables *)

(** A [DataFrame]: the length of its index and its columns in order, each
    a label and one cell per row. *)
Record DataFrame : Type := mkDataFrame {
  nrows : nat;
  columns : list (string * list Value)
}.

(** What [pd.read_csv] hands back: every column has one cell per row. *)
Definition df_wf (df : DataFrame) : Prop :=
  Forall (fun c => length c.2 = nrows df) (columns df).

(** ** The world and the monad of effects *)

(** Besides the trace and the files, the world holds the one thing about
    the platform that the script can run into: the longest sleep, in
    seconds, that its clock takes. *)
Record World : Type := mkWorld {
  trace : list Event;
  files : gmap string DataFrame;
  sleep_limit : Z
}.

Definition Py (A : Type) : Type := World -> World * Outcome A.

#[global] Instance Py_ret : MRet Py := fun A a w => (w, Ret a).

#[global] Instance Py_bind : MBind Py := fun A B f m w =>
  match m w with
  | (w', Ret a) => f a w'
  | (w', Raise e) => (w', Raise e)
  end.

Definition raise {A : Type} (e : PyExn) : Py A := fun w => (w, Raise e).

Definition log (e : Event) (w : World) : World :=
  {| trace := trace w ++ [e]; files := files w; sleep_limit := sleep_limit w |}.

(** [client.messages.create(...)]: the request is recorded, the client
    answers from what it has seen so far.  The answer is handed to the
    surrounding [try]/[except] as a value. *)
Definition messages_create (client : Client) (req : Request) : Py Response :=
  fun w => (log (EvCreate req) w, Ret (client (trace w) req)).

(** The largest number of seconds that CPython's clock type holds: it
    counts nanoseconds in a signed 64-bit integer. *)
Definition pytime_max : Z := (2 ^ 63 - 1) / 10 ^ 9.

(** The longest sleep that the world takes.  Every platform sleeps for the
    two seconds that the default arguments of the script can ask for; how
    much longer it can is the platform's own limit. *)
Definition longest_sleep (w : World) : Z :=
  Z.max 2 (Z.min (sleep_limit w) pytime_max).

(** What [time.sleep(secs)] raises, if anything.  The length is first
    converted to the clock type ([OverflowError] when it does not fit,
    whatever its sign), then checked for its sign ([ValueError] when
    negative), then handed to the operating system ([OSError] when that
    is more than its clock takes). *)
Definition sleep_refusal (w : World) (secs : Z) : option PyExn :=
  if (secs <? - pytime_max) || (pytime_max <? secs)
  then Some (OverflowError "timestamp too large to convert to C _PyTime_t")
  else if secs <? 0
  then Some (ValueError "sleep length must be non-negative")
  else if secs <=? longest_sleep w
  then None
  else Some (OSError "[Errno 22] Invalid argument").

(** [time.sleep(secs)] *)
Definition sleep (secs : Z) : Py unit :=
  fun w =>
    match sleep_refusal w secs with
    | Some e => (w, Raise e)
    | None => (log (EvSleep secs) w, Ret tt)
    end.

(** [range(n)]: empty when [n <= 0]. *)
Definition range (n : Z) : list Z := Z.of_nat <$> seq 0 (Z.to_nat n).

(** ** [process_single_narrative] *)

(** The line feed written [\n] in the source. *)
Definition nl : string := String (Ascii.ascii_of_nat 10) EmptyString.

(** The request built inside the [try]:
    [f"{prompt}\n\nNarrative: {narrative}"] as the one user message. *)
Definition single_request (prompt : string) (narrative : Value) : Request :=
  {| model := "claude-3-5-sonnet-20241022";
     max_tokens := 1000;
     messages :=
       [ {| role := "user";
            content :=
              prompt +:+ nl +:+ nl +:+ "Narrative: " +:+ format narrative |} ] |}.

(** The body of [for attempt in range(max_retries)], over the attempts
    still to come.  Running out of attempts without a [return] falls off
    the end of the function: [None]. *)
Fixpoint retry_loop (narrative : Value) (client : Client) (prompt : string)
    (max_retries delay : Z) (attempts : list Z) : Py Value :=
  match attempts with
  | [] => mret VNone
  | attempt :: rest =>
      r ← messages_create client (single_request prompt narrative);
      match r with
      | Returned text => mret (VStr text)
      | Raised e =>
          if attempt =? max_retries - 1
          then mret (VStr ("Error: " +:+ e))
          else sleep (delay * (attempt + 1));;
               retry_loop narrative client prompt max_retries delay rest
      end
  end.

Definition process_single_narrative (narrative : Value) (client : Client)
    (prompt : string) (max_retries delay : Z) : Py Value :=
  retry_loop narrative client prompt max_retries delay (range max_retries).

(** ** [process_narrative_pairs] *)

(** [l[i]] on a Python list: a negative index counts from the end, an
    index outside the list raises [IndexError]. *)
Definition list_getitem (l : list Value) (i : Z) : Py Value :=
  let j := if i <? 0 then i + Z.of_nat (length l) else i in
  if j <? 0 then raise (IndexError "list index out of range")
  else match l !! Z.to_nat j with
       | Some v => mret v
       | None => raise (IndexError "list index out of range")
       end.

(** [l[i] = v] on a Python list, with the same index rules. *)
Definition list_setitem (l : list Value) (i : Z) (v : Value) : Py (list Value) :=
  let j := if i <? 0 then i + Z.of_nat (length l) else i in
  if (j <? 0) || (Z.of_nat (length l) <=? j)
  then raise (IndexError "list assignment index out of range")
  else mret (<[Z.to_nat j := v]> l).

(** [f"First: {a}\nSecond: {b}"], the text handed over as [narrative]. *)
Definition pair_payload (a b : Value) : Value :=
  VStr ("First: " +:+ format a +:+ nl +:+ "Second: " +:+ format b).

(** The body of [for i in range(len(narratives) - 1)], over the indices
    still to come; [results] is the list being filled in.  The inner call
    leaves [max_retries] and [delay] at their defaults, 3 and 1. *)
Fixpoint pairs_loop (narratives : list Value) (client : Client) (prompt : string)
    (indices : list Z) (results : list Value) : Py (list Value) :=
  match indices with
  | [] => mret results
  | i :: rest =>
      a ← list_getitem narratives i;
      b ← list_getitem narratives (i + 1);
      pair_result ← process_single_narrative (pair_payload a b) client prompt 3 1;
      results' ← list_setitem results (i + 1) pair_result;
      pairs_loop narratives client prompt rest results'
  end.

Definition process_narrative_pairs (narratives : list Value) (client : Client)
    (prompt : string) : Py (list Value) :=
  pairs_loop narratives client prompt
    (range (Z.of_nat (length narratives) - 1))
    (replicate (length narratives) (VStr "")).

(** ** Table operations used by the driver *)

(** [pd.read_csv(path, sep='\t')]: the table stored under [path], or an
    exception when there is none to read. *)
Definition read_csv (path : string) : Py DataFrame :=
  fun w =>
    match files w !! path with
    | Some df => (w, Ret df)
    | None => (w, Raise (FileNotFoundError path))
    end.

(** [df.to_csv(path, sep='\t', index=False)]: the table replaces what was
    stored under [path]. *)
Definition to_csv (df : DataFrame) (path : string) : Py unit :=
  fun w =>
    ({| trace := trace w;
        files := <[path := df]> (files w);
        sleep_limit := sleep_limit w |}, Ret tt).

(** The first column labelled [key], if any. *)
Fixpoint column_lookup (key : string) (cols : list (string * list Value))
    : option (list Value) :=
  match cols with
  | [] => None
  | (label, cells) :: rest =>
      if bool_decide (label = key) then Some cells else column_lookup key rest
  end.

(** [df[key]]: the cells of the column, [KeyError] when no column has
    that label. *)
Definition df_getitem (df : DataFrame) (key : string) : Py (list Value) :=
  match column_lookup key (columns df) with
  | Some cells => mret cells
  | None => raise (KeyError key)
  end.

(** Where [df[key] = cells] puts the cells: over the column that carries
    the label, which keeps its place, or in a new last column. *)
Definition set_column (key : string) (cells : list Value)
    (cols : list (string * list Value)) : list (string * list Value) :=
  if bool_decide (key ∈ cols.*1)
  then (fun c => if bool_decide (c.1 = key) then (key, cells) else c) <$> cols
  else cols ++ [(key, cells)].

(** [df[key] = cells]: [ValueError] unless there is one cell per row. *)
Definition df_setitem (df : DataFrame) (key : string) (cells : list Value)
    : Py DataFrame :=
  if bool_decide (length cells = nrows df)
  then mret {| nrows := nrows df; columns := set_column key cells (columns df) |}
  else raise (ValueError "Length of values does not match length of index").

(** [series.apply(f)]: [f] on every cell, first row first. *)
Fixpoint series_apply (f : Value -> Py Value) (cells : list Value) : Py (list Value) :=
  match cells with
  | [] => mret []
  | x :: rest =>
      y ← f x;
      ys ← series_apply f rest;
      mret (y :: ys)
  end.

(** ** [process_narratives] *)

Section Driver.

(** The SDK's constructor: the client that an API key gives access to. *)
Variable Anthropic : string -> Client.

Definition process_narratives (file_path api_key narrative_prompt
    comparison_prompt : string) : Py unit :=
  let client := Anthropic api_key in
  df ← read_csv file_path;
  narratives ← df_getitem df "Narrative";
  annotations ← series_apply
    (fun x => process_single_narrative x client narrative_prompt 3 1) narratives;
  df ← df_setitem df "Narrative_roles_and_salient_elements" annotations;
  annotations ← df_getitem df "Narrative_roles_and_salient_elements";
  persistence ← process_narrative_pairs annotations client comparison_prompt;
  df ← df_setitem df "Elements_persistence" persistence;
  to_csv df file_path.

End Driver.

(** ** Vocabulary of the specification *)

(** The world after some more events. *)
Definition extend (evs : list Event) (w : World) : World :=
  {| trace := trace w ++ evs; files := files w; sleep_limit := sleep_limit w |}.

(** [k] failed attempts, each followed by its back-off sleep; the sleep
    after the attempt numbered [j] (counting from [first]) lasts
    [delay * j]. *)
Definition failed_attempts (req : Request) (delay : Z) (first k : nat) : list Event :=
  flat_map (fun j => [EvCreate req; EvSleep (delay * Z.of_nat j)]) (seq first k).

(** The requests and the sleeps of a piece of trace. *)
Definition requests_of (evs : list Event) : list Request :=
  omap (fun ev => match ev with EvCreate req => Some req | EvSleep _ => None end) evs.

Definition sleeps_of (evs : list Event) : list Z :=
  omap (fun ev => match ev with EvSleep d => Some d | EvCreate _ => None end) evs.

(** A capability that fails whenever it is asked. *)
Definition always_fails (client : Client) : Prop :=
  forall tr req, exists e, client tr req = Raised e.

(** A capability that answers whenever it is asked. *)
Definition always_succeeds (client : Client) : Prop :=
  forall tr req, exists text, client tr req = Returned text.

(** A capability whose answer is a function of the request alone. *)
Definition deterministic (client : Client) : Prop :=
  forall tr tr' req, client tr req = client tr' req.

(** Seen from world [w], the capability fails on exactly the first [k]
    attempts for [req] (with back-off unit [delay] slept in between) and
    answers [p] on the next one. *)
Definition fails_then_succeeds (client : Client) (w : World) (req : Request)
    (delay : Z) (k : nat) (p : string) : Prop :=
  (forall j, (j < k)%nat ->
     exists e, client (trace w ++ failed_attempts req delay 1 j) req = Raised e) /\
  client (trace w ++ failed_attempts req delay 1 k) req = Returned p.

(** A cell that a request can produce: text that the capability returned,
    or the marker built from a failure it raised. *)
Definition answer_of (client : Client) (v : Value) : Prop :=
  exists tr req,
    (exists text, client tr req = Returned text /\ v = VStr text) \/
    (exists e, client tr req = Raised e /\ v = VStr ("Error: " +:+ e)).

Definition is_error_marker (v : Value) : Prop :=
  exists e, v = VStr ("Error: " +:+ e).

Definition is_str (v : Value) : Prop := exists s, v = VStr s.

(** The comparator as the specification words it: nothing for the first
    row, and for every later row the annotator's answer on the pair made
    of the previous annotation and this one. *)
Fixpoint compare_adjacent (client : Client) (prompt : string) (prev : Value)
    (rest : list Value) : Py (list Value) :=
  match rest with
  | [] => mret []
  | next :: rest' =>
      r ← process_single_narrative (pair_payload prev next) client prompt 3 1;
      rs ← compare_adjacent client prompt next rest';
      mret (r :: rs)
  end.

Definition comparator_spec (annotations : list Value) (client : Client)
    (prompt : string) : Py (list Value) :=
  match annotations with
  | [] => mret []
  | first :: rest =>
      rs ← compare_adjacent client prompt first rest;
      mret (VStr "" :: rs)
  end.

(** One comparison inside a run of the comparator: the annotator, called
    on the pair [(a, b)] in world [before], sends between one and three
    times the same request, ends in world [after] and returns the string
    [v]. *)
Definition comparison_step (client : Client) (prompt : string) (a b : Value)
    (before after : World) (v : Value) : Prop :=
  process_single_narrative (pair_payload a b) client prompt 3 1 before =
    (after, Ret v) /\
  is_str v /\ answer_of client v /\
  exists k, (k < 3)%nat /\
    after =
      extend (failed_attempts (single_request prompt (pair_payload a b)) 1 1 k
                ++ [EvCreate (single_request prompt (pair_payload a b))]) before.

(** The requests of the comparisons over a list of annotations, one per
    adjacent pair, in row order. *)
Definition pair_requests (prompt : string) (annotations : list Value) : list Request :=
  zip_with (fun a b => single_request prompt (pair_payload a b))
    annotations (tail annotations).

(** The labels of the two derived columns. *)
Definition annotation_column : string := "Narrative_roles_and_salient_elements".
Definition persistence_column : string := "Elements_persistence".

(** Every column labelled [key] holds exactly [cells], and there is one. *)
Definition column_is (key : string) (cells : list Value)
    (cols : list (string * list Value)) : Prop :=
  key ∈ cols.*1 /\ forall c, c ∈ cols -> c.1 = key -> c = (key, cells).

(** A computation that does the same thing in every world: the same
    events, the same outcome, no other change. *)
Definition world_independent {A : Type} (m : Py A) : Prop :=
  forall w w', exists evs r, m w = (extend evs w, r) /\ m w' = (extend evs w', r).

(** [1 + 2 + ... + n], the way the closed form is usually written. *)
Definition triangle (n : Z) : Z := n * (n + 1) / 2.

(** [sum(l)] *)
Definition sum_list (l : list Z) : Z := foldr Z.add 0 l.

(** ** Test doubles *)

(** Fails whenever asked, with the text [msg]. *)
Definition failing_client (msg : string) : Client := fun _ _ => Raised msg.

(** Answers [text] whenever asked. *)
Definition constant_client (text : string) : Client := fun _ _ => Returned text.

(** Fails on the first [k] requests it sees, answers [text] afterwards. *)
Definition flaky_client (k : nat) (text : string) : Client := fun tr _ =>
  if bool_decide (length (requests_of tr) < k)%nat
  then Raised "overloaded"
  else Returned text.

(** Answers with the request's text between brackets. *)
Definition echo_client : Client := fun _ req =>
  match messages req with
  | [m] => Returned ("[" +:+ content m +:+ "]")
  | _ => Raised "bad request"
  end.

Definition empty_world : World :=
  {| trace := []; files := ∅; sleep_limit := 86400 |}.

(** The table of the specification's scenario, stored under a path. *)
Definition sample_table : DataFrame :=
  {| nrows := 3;
     columns :=
       [ ("Id", [VStr "1"; VStr "2"; VStr "3"]);
         ("Narrative",
          [VStr "A dog slept."; VStr "A cat helped."; VStr "A bird attacked."]) ] |}.

Definition sample_world : World :=
  {| trace := [];
     files := {[ "stories.tsv" := sample_table ]};
     sleep_limit := 86400 |}.

(** A table that already went through the pipeline once: it carries the
    two derived columns, with whatever an earlier run left in them. *)
Definition annotated_table : DataFrame :=
  {| nrows := 2;
     columns :=
       [ ("Narrative", [VStr "A dog slept."; VStr "A cat helped."]);
         ("Narrative_roles_and_salient_elements", [VStr "old"; VStr "Error: timeout"]);
         ("Elements_persistence", [VStr ""; VStr "stale"]) ] |}.

Definition annotated_world : World :=
  {| trace := [EvSleep 1];
     files := {[ "stories.tsv" := annotated_table ]};
     sleep_limit := 86400 |}.

(** ** Further vocabulary *)

(** The cell that one answer of the capability ends up as: the text it
    returned, or the marker for the failure it raised. *)
Definition text_of (r : Response) : string :=
  match r with
  | Returned text => text
  | Raised e => "Error: " +:+ e
  end.

(** The capability answers by the function [f] of the request, whatever
    happened before. *)
Definition answers_by (client : Client) (f : Request -> Response) : Prop :=
  forall tr req, client tr req = f req.

(** Each request sent as many times as its count says, in order. *)
Definition repeat_each (counts : list nat) (reqs : list Request) : list Request :=
  mjoin (zip_with replicate counts reqs).

(** The column labels of a table, in column order. *)
Definition labels (df : DataFrame) : list string := (columns df).*1.

(** Answers the requests that start with ["Annotate."], fails on all
    others. *)
Definition picky_client : Client := fun _ req =>
  match messages req with
  | [m] => if String.prefix "Annotate." (content m)
           then Returned "roles" else Raised "refused"
  | _ => Raised "bad request"
  end.

(** The annotation column that a capability answering by [f] produces. *)
Definition annotate_with (f : Request -> Response) (prompt : string)
    (narratives : list Value) : list Value :=
  (fun x => VStr (text_of (f (single_request prompt x)))) <$> narratives.

(** The persistence column that a capability answering by [f] produces. *)
Definition compare_with (f : Request -> Response) (prompt : string)
    (annotations : list Value) : list Value :=
  match annotations with
  | [] => []
  | _ :: _ =>
      VStr "" :: ((fun req => VStr (text_of (f req)))
                    <$> pair_requests prompt annotations)
  end.

(** ** Basic facts *)

Lemma pytime_max_value : pytime_max = 9223372036.
Proof. reflexivity. Qed.

Lemma longest_sleep_bounds w : 2 <= longest_sleep w <= pytime_max.
Proof. unfold longest_sleep. rewrite pytime_max_value. lia. Qed.

Lemma sleep_refusal_None w secs :
  0 <= secs <= longest_sleep w -> sleep_refusal w secs = None.
Proof.
  intros Hs. pose proof (longest_sleep_bounds w) as Hb.
  rewrite pytime_max_value in Hb. unfold sleep_refusal.
  rewrite pytime_max_value.
  rewrite (proj2 (Z.ltb_ge secs (Z.opp 9223372036))) by lia.
  rewrite (proj2 (Z.ltb_ge 9223372036 secs)) by lia.
  rewrite (proj2 (Z.ltb_ge secs 0)) by lia.
  by rewrite (proj2 (Z.leb_le secs (longest_sleep w))) by lia.
Qed.

Lemma sleep_refusal_Some w secs e :
  sleep_refusal w secs = Some e -> secs < 0 \/ longest_sleep w < secs.
Proof.
  intros Hr. destruct (Z.lt_ge_cases secs 0) as [|H0]; [by left|].
  destruct (Z.lt_ge_cases (longest_sleep w) secs) as [|H1]; [by right|].
  rewrite sleep_refusal_None in Hr by lia. discriminate.
Qed.

Lemma sleep_accepts secs w :
  0 <= secs <= longest_sleep w ->
  sleep secs w = (log (EvSleep secs) w, Ret tt).
Proof. intros Hs. unfold sleep. by rewrite sleep_refusal_None. Qed.

Lemma sleep_refuses secs w e :
  sleep_refusal w secs = Some e -> sleep secs w = (w, Raise e).
Proof. intros Hr. unfold sleep. by rewrite Hr. Qed.

Lemma log_extend e w : log e w = extend [e] w.
Proof. reflexivity. Qed.

Lemma extend_extend evs1 evs2 w :
  extend evs2 (extend evs1 w) = extend (evs1 ++ evs2) w.
Proof. unfold extend; simpl. by rewrite <- app_assoc. Qed.

Lemma extend_nil w : extend [] w = w.
Proof. destruct w; unfold extend; simpl. by rewrite app_nil_r. Qed.

Lemma failed_attempts_S req delay first k :
  failed_attempts req delay first (S k) =
  [EvCreate req; EvSleep (delay * Z.of_nat first)]
    ++ failed_attempts req delay (S first) k.
Proof. reflexivity. Qed.

Lemma failed_attempts_snoc req delay first k :
  failed_attempts req delay first (S k) =
  failed_attempts req delay first k
    ++ [EvCreate req; EvSleep (delay * Z.of_nat (first + k))].
Proof.
  unfold failed_attempts. rewrite seq_S, flat_map_app. simpl. done.
Qed.

Lemma requests_of_app evs1 evs2 :
  requests_of (evs1 ++ evs2) = requests_of evs1 ++ requests_of evs2.
Proof. apply omap_app. Qed.

Lemma sleeps_of_app evs1 evs2 :
  sleeps_of (evs1 ++ evs2) = sleeps_of evs1 ++ sleeps_of evs2.
Proof. apply omap_app. Qed.

Lemma requests_of_failed_attempts req delay first k :
  requests_of (failed_attempts req delay first k) = replicate k req.
Proof.
  revert first. induction k as [|k IH]; intros first; [done|].
  rewrite failed_attempts_S, requests_of_app, IH. done.
Qed.

Lemma sleeps_of_failed_attempts req delay first k :
  sleeps_of (failed_attempts req delay first k) =
  (fun j => delay * Z.of_nat j) <$> seq first k.
Proof.
  revert first. induction k as [|k IH]; intros first; [done|].
  rewrite failed_attempts_S, sleeps_of_app, IH. done.
Qed.

Lemma triangle_succ n : 0 <= n -> triangle (n + 1) = triangle n + (n + 1).
Proof.
  intros Hn. unfold triangle.
  replace ((n + 1) * (n + 1 + 1)) with (n * (n + 1) + (n + 1) * 2) by lia.
  by rewrite Z.div_add.
Qed.

Lemma sum_list_snoc l x : sum_list (l ++ [x]) = sum_list l + x.
Proof. unfold sum_list. induction l as [|y l IH]; simpl; lia. Qed.

Lemma sum_backoff delay k :
  sum_list ((fun j => delay * Z.of_nat j) <$> seq 1 k) =
  delay * triangle (Z.of_nat k).
Proof.
  induction k as [|k IH]; [by rewrite Z.mul_0_r|].
  rewrite seq_S, fmap_app, fmap_cons, fmap_nil, sum_list_snoc, IH.
  replace (Z.of_nat (S k)) with (Z.of_nat k + 1) by lia.
  rewrite triangle_succ by lia. lia.
Qed.

(** ** The retry loop *)

Section Retry.

Variables (narrative : Value) (client : Client) (prompt : string).
Variables (max_retries delay : Z).

(** No attempt left: nothing happens and [None] comes back. *)
Lemma retry_loop_nil w :
  retry_loop narrative client prompt max_retries delay [] w = (w, Ret VNone).
Proof. reflexivity. Qed.

(** An attempt that succeeds ends the loop with the text it returned. *)
Lemma retry_loop_returned attempt rest w text :
  client (trace w) (single_request prompt narrative) = Returned text ->
  retry_loop narrative client prompt max_retries delay (attempt :: rest) w =
    (extend [EvCreate (single_request prompt narrative)] w, Ret (VStr text)).
Proof.
  intros Hc. simpl. unfold mbind, Py_bind, messages_create.
  rewrite Hc. reflexivity.
Qed.

(** The last attempt fails: the marker comes back. *)
Lemma retry_loop_raised_last attempt rest w e :
  client (trace w) (single_request prompt narrative) = Raised e ->
  attempt = max_retries - 1 ->
  retry_loop narrative client prompt max_retries delay (attempt :: rest) w =
    (extend [EvCreate (single_request prompt narrative)] w,
     Ret (VStr ("Error: " +:+ e))).
Proof.
  intros Hc ->. simpl. unfold mbind, Py_bind, messages_create.
  rewrite Hc, Z.eqb_refl. reflexivity.
Qed.

(** An earlier attempt fails: sleep, then go on with the rest. *)
Lemma retry_loop_raised_more attempt rest w e :
  client (trace w) (single_request prompt narrative) = Raised e ->
  attempt <> max_retries - 1 ->
  0 <= delay * (attempt + 1) <= longest_sleep w ->
  retry_loop narrative client prompt max_retries delay (attempt :: rest) w =
    retry_loop narrative client prompt max_retries delay rest
      (extend [EvCreate (single_request prompt narrative);
               EvSleep (delay * (attempt + 1))] w).
Proof.
  intros Hc Hne Hd. simpl.
  unfold mbind, Py_bind, messages_create. rewrite Hc.
  destruct (Z.eqb_spec attempt (max_retries - 1)) as [|_]; [done|].
  rewrite sleep_accepts by done.
  rewrite !log_extend, extend_extend. reflexivity.
Qed.

(** An earlier attempt fails and [time.sleep] refuses the back-off: its
    exception leaves the function. *)
Lemma retry_loop_raised_refused attempt rest w e exn :
  client (trace w) (single_request prompt narrative) = Raised e ->
  attempt <> max_retries - 1 ->
  sleep_refusal w (delay * (attempt + 1)) = Some exn ->
  retry_loop narrative client prompt max_retries delay (attempt :: rest) w =
    (extend [EvCreate (single_request prompt narrative)] w, Raise exn).
Proof.
  intros Hc Hne Hd. simpl.
  unfold mbind, Py_bind, messages_create. rewrite Hc.
  destruct (Z.eqb_spec attempt (max_retries - 1)) as [|_]; [done|].
  by rewrite (sleep_refuses _ _ exn).
Qed.

(** The whole story of a run over the attempts [a, a+1, ..., a+n-1] that
    end at [max_retries - 1]: some number [k < n] of failures with their
    sleeps, then one more request that either succeeds, or is the last
    one allowed and fails. *)
Lemma retry_loop_run n : forall a w,
  max_retries = Z.of_nat (a + n) ->
  (0 < n)%nat ->
  0 <= delay ->
  delay * (max_retries - 1) <= longest_sleep w ->
  exists k v,
    (k < n)%nat /\
    retry_loop narrative client prompt max_retries delay (Z.of_nat <$> seq a n) w =
      (extend (failed_attempts (single_request prompt narrative) delay (S a) k
                 ++ [EvCreate (single_request prompt narrative)]) w,
       Ret v) /\
    (forall j, (j < k)%nat ->
       exists e,
         client
           (trace w ++ failed_attempts (single_request prompt narrative) delay (S a) j)
           (single_request prompt narrative) = Raised e) /\
    ((exists text,
        client
          (trace w ++ failed_attempts (single_request prompt narrative) delay (S a) k)
          (single_request prompt narrative) = Returned text /\
        v = VStr text) \/
     (S k = n /\
      exists e,
        client
          (trace w ++ failed_attempts (single_request prompt narrative) delay (S a) k)
          (single_request prompt narrative) = Raised e /\
        v = VStr ("Error: " +:+ e))).
Proof.
  induction n as [|n IH]; intros a w Hmax Hn Hd Hs; [lia|].
  rewrite <- cons_seq, fmap_cons.
  destruct (client (trace w) (single_request prompt narrative)) as [text|e] eqn:Hc.
  - exists 0%nat, (VStr text). split; [lia|]. split.
    + by apply retry_loop_returned.
    + split; [intros j Hj; lia|]. left. exists text.
      simpl. by rewrite app_nil_r.
  - destruct n as [|n].
    + exists 0%nat, (VStr ("Error: " +:+ e)). split; [lia|]. split.
      * apply retry_loop_raised_last; [done|lia].
      * split; [intros j Hj; lia|]. right. split; [done|]. exists e.
        simpl. by rewrite app_nil_r.
    + rewrite (retry_loop_raised_more _ _ _ e) by (done || lia || nia).
      replace (Z.of_nat a + 1) with (Z.of_nat (S a)) by lia.
      set (w1 := extend _ w).
      destruct (IH (S a) w1) as (k & v & Hk & Hrun & Hfail & Hend);
        [lia | lia | done | done |].
      assert (Htr : forall j,
        trace w1 ++ failed_attempts (single_request prompt narrative) delay (S (S a)) j =
        trace w ++ failed_attempts (single_request prompt narrative) delay (S a) (S j)).
      { intros j. unfold w1. simpl. rewrite failed_attempts_S.
        by rewrite <- app_assoc. }
      exists (S k), v. split; [lia|]. split.
      * rewrite Hrun. unfold w1. rewrite extend_extend.
        rewrite failed_attempts_S. by rewrite <- app_assoc.
      * split.
        -- intros [|j] Hj.
           ++ exists e. simpl. by rewrite app_nil_r.
           ++ rewrite <- Htr. apply Hfail. lia.
        -- rewrite <- Htr. destruct Hend as [Hok | [Hlast Hbad]].
           ++ by left.
           ++ right. split; [lia | done].
Qed.

End Retry.

(** ** [process_single_narrative] as a whole *)

Lemma range_seq n : range n = Z.of_nat <$> seq 0 (Z.to_nat n).
Proof. reflexivity. Qed.

Lemma range_nonpos n : n <= 0 -> range n = [].
Proof. intros Hn. unfold range. by replace (Z.to_nat n) with 0%nat by lia. Qed.

(** With at least one attempt allowed and a back-off that can be slept,
    the call returns a string: after [k] failures either the text of the
    first success, or the marker of the last allowed failure. *)
Lemma process_single_narrative_run narrative client prompt max_retries delay w :
  1 <= max_retries ->
  0 <= delay ->
  delay * (max_retries - 1) <= longest_sleep w ->
  let req := single_request prompt narrative in
  exists k v,
    Z.of_nat k < max_retries /\
    process_single_narrative narrative client prompt max_retries delay w =
      (extend (failed_attempts req delay 1 k ++ [EvCreate req]) w, Ret v) /\
    (forall j, (j < k)%nat ->
       exists e, client (trace w ++ failed_attempts req delay 1 j) req = Raised e) /\
    ((exists text,
        client (trace w ++ failed_attempts req delay 1 k) req = Returned text /\
        v = VStr text) \/
     (Z.of_nat (S k) = max_retries /\
      exists e,
        client (trace w ++ failed_attempts req delay 1 k) req = Raised e /\
        v = VStr ("Error: " +:+ e))).
Proof.
  intros Hm Hd Hs req.
  destruct (retry_loop_run narrative client prompt max_retries delay
              (Z.to_nat max_retries) 0%nat w) as (k & v & Hk & Hrun & Hfail & Hend);
    [lia | lia | done | done |].
  exists k, v. split; [lia|]. split; [exact Hrun|]. split; [exact Hfail|].
  destruct Hend as [Hok | [Hlast Hbad]]; [by left | right].
  split; [lia | done].
Qed.

(** The same, keeping only what callers rely on. *)
Lemma process_single_narrative_answer narrative client prompt max_retries delay w :
  1 <= max_retries ->
  0 <= delay ->
  delay * (max_retries - 1) <= longest_sleep w ->
  exists evs v,
    process_single_narrative narrative client prompt max_retries delay w =
      (extend evs w, Ret v) /\
    is_str v /\ answer_of client v.
Proof.
  intros Hm Hd Hs.
  destruct (process_single_narrative_run narrative client prompt max_retries
              delay w Hm Hd Hs) as (k & v & _ & Hrun & _ & Hend).
  eexists _, v. split; [exact Hrun|].
  destruct Hend as [(text & Hc & ->) | (_ & e & Hc & ->)].
  - split; [by eexists|]. eexists _, _. left. eauto.
  - split; [by eexists|]. eexists _, _. right. eauto.
Qed.


(** The sleeps that the default arguments can ask for are always taken. *)
Lemma default_sleepable w : 1 * (3 - 1) <= longest_sleep w.
Proof. pose proof (longest_sleep_bounds w). lia. Qed.

Lemma error_marker_prefix e : String.prefix "Error: " ("Error: " +:+ e) = true.
Proof. simpl. by destruct e. Qed.


(** ** Claims about the single-item annotator *)

(** C1 (amended).  Against a capability that fails on every attempt, a
    call with [max_retries = m >= 1] and a back-off that [time.sleep]
    takes (not negative, and its longest delay [delay * (m - 1)] within
    what the platform sleeps) sends exactly [m] requests, raises nothing
    and returns the string ["Error: "] followed by the text of the last
    failure.  That marker differs from every success payload that does
    not itself begin with ["Error: "]. *)
Theorem all_failures_give_marker narrative client prompt m delay w :
  always_fails client ->
  1 <= m ->
  0 <= delay ->
  delay * (m - 1) <= longest_sleep w ->
  exists evs e,
    process_single_narrative narrative client prompt m delay w =
      (extend evs w, Ret (VStr ("Error: " +:+ e))) /\
    requests_of evs = replicate (Z.to_nat m) (single_request prompt narrative) /\
    client (trace w ++ failed_attempts (single_request prompt narrative) delay 1
                         (Z.to_nat m - 1))
      (single_request prompt narrative) = Raised e /\
    (forall payload, String.prefix "Error: " payload = false ->
       VStr ("Error: " +:+ e) <> VStr payload).
Proof.
  intros Hfail Hm Hd Hs.
  destruct (process_single_narrative_run narrative client prompt m delay w Hm Hd Hs)
    as (k & v & Hk & Hrun & _ & Hend).
  destruct Hend as [(text & Hc & _) | (Hlast & e & Hc & ->)].
  { destruct (Hfail (trace w ++ failed_attempts (single_request prompt narrative)
                                 delay 1 k) (single_request prompt narrative))
      as [e He]. congruence. }
  replace (Z.to_nat m - 1)%nat with k by lia.
  eexists _, e. split; [exact Hrun|]. split; [|split; [exact Hc|]].
  - rewrite requests_of_app, requests_of_failed_attempts. simpl.
    replace (Z.to_nat m) with (S k) by lia.
    clear. induction k as [|k IH]; simpl; [done | by rewrite IH].
  - intros payload Hp Heq. injection Heq as <-.
    by rewrite error_marker_prefix in Hp.
Qed.

Lemma all_failures_give_marker_witness :
  exists evs e,
    process_single_narrative (VStr "A dog slept.") (failing_client "boom")
      "Annotate." 3 1 empty_world =
      (extend evs empty_world, Ret (VStr ("Error: " +:+ e))) /\
    requests_of evs =
      replicate (Z.to_nat 3) (single_request "Annotate." (VStr "A dog slept.")) /\
    failing_client "boom"
      (trace empty_world ++
         failed_attempts (single_request "Annotate." (VStr "A dog slept.")) 1 1
           (Z.to_nat 3 - 1))
      (single_request "Annotate." (VStr "A dog slept.")) = Raised e /\
    (forall payload, String.prefix "Error: " payload = false ->
       VStr ("Error: " +:+ e) <> VStr payload).
Proof.
  apply (all_failures_give_marker (VStr "A dog slept.") (failing_client "boom")
           "Annotate." 3 1 empty_world).
  - intros tr req. exists "boom". reflexivity.
  - lia.
  - lia.
  - apply Z.leb_le. vm_compute. reflexivity.
Defined.

(** C1 as stated does not hold: the value returned after three failures
    cannot be told apart from the value returned after a first-attempt
    success whose payload happens to read the same. *)
Lemma marker_equals_some_payload :
  ~ (forall (failing succeeding : Client) narrative prompt m w payload,
       always_fails failing ->
       1 <= m ->
       succeeding (trace w) (single_request prompt narrative) = Returned payload ->
       (process_single_narrative narrative failing prompt m 1 w).2 <>
       (process_single_narrative narrative succeeding prompt m 1 w).2).
Proof.
  intros H.
  apply (H (failing_client "boom") (constant_client "Error: boom")
           (VStr "A dog slept.") "Annotate." 3 empty_world "Error: boom").
  - intros tr req. exists "boom". reflexivity.
  - lia.
  - reflexivity.
  - reflexivity.
Qed.





(** C9.  With [max_retries] zero or negative the loop body never runs: no
    request is sent, nothing is slept, and the call returns [None], which
    is not a string. *)
Theorem no_attempts_returns_none narrative client prompt m delay w :
  m <= 0 ->
  process_single_narrative narrative client prompt m delay w = (w, Ret VNone) /\
  ~ is_str VNone.
Proof.
  intros Hm. split.
  - unfold process_single_narrative. by rewrite range_nonpos.
  - intros [s Hs]. discriminate.
Qed.

Lemma no_attempts_returns_none_witness :
  process_single_narrative (VStr "A dog slept.") (constant_client "roles")
    "Annotate." 0 1 empty_world = (empty_world, Ret VNone) /\
  ~ is_str VNone.
Proof.
  apply (no_attempts_returns_none (VStr "A dog slept.") (constant_client "roles")
           "Annotate." 0 1 empty_world).
  lia.
Defined.

(** ** The comparator loop *)

Lemma bind_ret {A B} (m : Py A) (f : A -> Py B) w w' a :
  m w = (w', Ret a) -> (m ≫= f) w = f a w'.
Proof. intros H. unfold mbind, Py_bind. by rewrite H. Qed.

Lemma bind_raise {A B} (m : Py A) (f : A -> Py B) w w' e :
  m w = (w', Raise e) -> (m ≫= f) w = (w', Raise e).
Proof. intros H. unfold mbind, Py_bind. by rewrite H. Qed.

Lemma list_getitem_lookup (l : list Value) (i : nat) v w :
  l !! i = Some v -> list_getitem l (Z.of_nat i) w = (w, Ret v).
Proof.
  intros Hl. unfold list_getitem.
  destruct (Z.ltb_spec (Z.of_nat i) 0) as [|_]; [lia|].
  destruct (Z.ltb_spec (Z.of_nat i) 0) as [|_]; [lia|].
  by rewrite Nat2Z.id, Hl.
Qed.

Lemma list_setitem_insert (l : list Value) (i : nat) v w :
  (i < length l)%nat ->
  list_setitem l (Z.of_nat i) v w = (w, Ret (<[i := v]> l)).
Proof.
  intros Hi. unfold list_setitem.
  destruct (Z.ltb_spec (Z.of_nat i) 0) as [|_]; [lia|].
  destruct (Z.ltb_spec (Z.of_nat i) 0) as [|_]; [lia|].
  destruct (Z.leb_spec (Z.of_nat (length l)) (Z.of_nat i)) as [|_]; [lia|].
  by rewrite Nat2Z.id.
Qed.

(** The loop, started at the pair [(a, next)] with the rows before it
    already filled in, does what [compare_adjacent] does from there. *)
Lemma pairs_loop_refines client prompt rest : forall before a filled w,
  length filled = S (length before) ->
  pairs_loop (before ++ a :: rest) client prompt
    (Z.of_nat <$> seq (length before) (length rest))
    (filled ++ replicate (length rest) (VStr "")) w =
  (compare_adjacent client prompt a rest ≫= fun rs => mret (filled ++ rs)) w.
Proof.
  induction rest as [|next rest IH]; intros before a filled w Hlen.
  - reflexivity.
  - cbn [length seq fmap list_fmap pairs_loop compare_adjacent replicate].
    rewrite (bind_ret _ _ w w a).
    2:{ apply list_getitem_lookup. by rewrite list_lookup_middle. }
    rewrite (bind_ret _ _ w w next).
    2:{ replace (Z.of_nat (length before) + 1) with (Z.of_nat (S (length before)))
          by lia.
        apply list_getitem_lookup.
        rewrite (lookup_app_r before) by lia.
        by replace (S (length before) - length before)%nat with 1%nat by lia. }
    destruct (process_single_narrative_answer (pair_payload a next) client prompt
                3 1 w) as (evs & v & Hrun & _); [lia | lia | apply default_sleepable |].
    rewrite (bind_ret _ _ w (extend evs w) v Hrun).
    replace (Z.of_nat (length before) + 1) with (Z.of_nat (S (length before)))
      by lia.
    rewrite (bind_ret _ _ _ (extend evs w)
               ((filled ++ [v]) ++ replicate (length rest) (VStr ""))).
    2:{ rewrite list_setitem_insert by (rewrite length_app; simpl; lia).
        rewrite <- Hlen, <- (Nat.add_0_r (length filled)).
        rewrite insert_app_r. simpl. by rewrite <- app_assoc. }
    replace (before ++ a :: next :: rest) with ((before ++ [a]) ++ next :: rest)
      by (by rewrite <- app_assoc).
    replace (S (length before)) with (length (before ++ [a]))
      by (rewrite length_app; simpl; lia).
    rewrite IH by (rewrite !length_app; simpl; lia).
    unfold mbind, Py_bind. rewrite Hrun.
    destruct (compare_adjacent client prompt next rest (extend evs w))
      as [w2 [rs|e]]; [|done].
    unfold mret, Py_ret. by rewrite <- app_assoc.
Qed.

(** The code and the specification's wording agree. *)
Lemma process_narrative_pairs_refines narratives client prompt w :
  process_narrative_pairs narratives client prompt w =
  comparator_spec narratives client prompt w.
Proof.
  destruct narratives as [|a rest]; [reflexivity|].
  unfold process_narrative_pairs, comparator_spec, range.
  replace (Z.to_nat (Z.of_nat (length (a :: rest)) - 1)) with (length rest)
    by (simpl; lia).
  exact (pairs_loop_refines client prompt rest [] a [VStr ""] w eq_refl).
Qed.

Lemma comparison_step_exists client prompt a b w :
  exists after v, comparison_step client prompt a b w after v.
Proof.
  destruct (process_single_narrative_run (pair_payload a b) client prompt 3 1 w)
    as (k & v & Hk & Hrun & _ & Hend); [lia | lia | apply default_sleepable |].
  eexists _, v. split; [exact Hrun|].
  split; [|split].
  - destruct Hend as [(text & _ & ->) | (_ & e & _ & ->)]; by eexists.
  - destruct Hend as [(text & Hc & ->) | (_ & e & Hc & ->)]; eexists _, _.
    + left. eauto.
    + right. eauto.
  - exists k. split; [lia | done].
Qed.

(** A run of [compare_adjacent], comparison by comparison: [worlds i] is
    the world in which the comparison of rows [i] and [i + 1] starts. *)
Lemma compare_adjacent_run client prompt rest : forall prev w,
  exists (worlds : nat -> World) rs,
    compare_adjacent client prompt prev rest w = (worlds (length rest), Ret rs) /\
    worlds 0%nat = w /\
    length rs = length rest /\
    forall i a b,
      (prev :: rest) !! i = Some a ->
      rest !! i = Some b ->
      exists v,
        comparison_step client prompt a b (worlds i) (worlds (S i)) v /\
        rs !! i = Some v.
Proof.
  induction rest as [|next rest IH]; intros prev w.
  - exists (fun _ => w), []. repeat split; try done.
  - destruct (comparison_step_exists client prompt prev next w)
      as (w1 & v & Hstep).
    destruct (IH next w1) as (worlds & rs & Hrun & H0 & Hlen & Hsteps).
    exists (fun i => match i with O => w | S j => worlds j end), (v :: rs).
    split; [|split; [done|split; [simpl; by rewrite Hlen|]]].
    + cbn [compare_adjacent length].
      rewrite (bind_ret _ _ w w1 v (proj1 Hstep)).
      by rewrite (bind_ret _ _ w1 _ rs Hrun).
    + intros [|i] a b Ha Hb.
      * simpl in Ha, Hb. injection Ha as <-. injection Hb as <-.
        exists v. by rewrite H0.
      * simpl in Ha, Hb. destruct (Hsteps i a b Ha Hb) as (v' & Hv' & Hrs).
        exists v'. done.
Qed.

(** ** Claims about the pairwise comparator *)

(** The texts of the two claims below are spelled out character by
    character; the line feed is the character with code 10. *)
Lemma pair_payload_text a b :
  pair_payload a b =
  VStr ("First: " +:+ format a +:+ String "010"%char ("Second: " +:+ format b)).
Proof. reflexivity. Qed.

Lemma single_request_text prompt x :
  single_request prompt x =
  {| model := "claude-3-5-sonnet-20241022";
     max_tokens := 1000;
     messages :=
       [ {| role := "user";
            content :=
              prompt +:+
              String "010"%char (String "010"%char ("Narrative: " +:+ format x)) |} ] |}.
Proof. reflexivity. Qed.

(** C3.  On [N] annotations the comparator returns [N] strings.  Row 0
    gets the empty string (nothing at all for [N = 0], just the empty
    string for [N = 1]); row [i >= 1] gets what the annotator returns, in
    the world the earlier comparisons left, under the comparison prompt
    and with the default retry settings, on the payload ["First: "],
    annotation [i - 1], a line feed, ["Second: "], annotation [i].  The
    annotations go into that text as they are when they are strings. *)
Theorem comparator_output narratives client prompt w :
  exists (worlds : nat -> World) results,
    process_narrative_pairs narratives client prompt w =
      (worlds (length narratives - 1)%nat, Ret results) /\
    worlds 0%nat = w /\
    length results = length narratives /\
    Forall is_str results /\
    (narratives = [] -> results = []) /\
    (forall a, narratives = [a] -> results = [VStr ""]) /\
    (narratives <> [] -> results !! 0%nat = Some (VStr "")) /\
    forall i a b,
      narratives !! i = Some a ->
      narratives !! S i = Some b ->
      exists v,
        results !! S i = Some v /\
        process_single_narrative
          (VStr ("First: " +:+ format a +:+
                 String "010"%char ("Second: " +:+ format b)))
          client prompt 3 1 (worlds i) = (worlds (S i), Ret v) /\
        forall s t,
          a = VStr s ->
          b = VStr t ->
          process_single_narrative
            (VStr ("First: " +:+ s +:+ String "010"%char ("Second: " +:+ t)))
            client prompt 3 1 (worlds i) = (worlds (S i), Ret v).
Proof.
  rewrite process_narrative_pairs_refines.
  destruct narratives as [|first rest].
  { exists (fun _ => w), []. repeat split; try done. }
  destruct (compare_adjacent_run client prompt rest first w)
    as (worlds & rs & Hrun & H0 & Hlen & Hsteps).
  exists worlds, (VStr "" :: rs).
  split; [|split; [done|split; [simpl; by rewrite Hlen|]]].
  { unfold comparator_spec. rewrite (bind_ret _ _ w _ rs Hrun).
    simpl. by rewrite Nat.sub_0_r. }
  split.
  { constructor; [by exists ""|].
    apply Forall_lookup_2. intros i v Hv.
    assert (is_Some (rest !! i)) as [b Hb].
    { apply lookup_lt_is_Some. rewrite <- Hlen. by eapply lookup_lt_Some. }
    assert (is_Some ((first :: rest) !! i)) as [a Ha].
    { apply lookup_lt_is_Some. simpl. apply lookup_lt_Some in Hb. lia. }
    destruct (Hsteps i a b Ha Hb) as (v' & Hstep & Hrs).
    replace v with v' by congruence. apply Hstep. }
  split; [done|]. split.
  { intros a [= _ ->]. by destruct rs. }
  split; [done|].
  intros i a b Ha Hb. simpl in Hb.
  destruct (Hsteps i a b Ha Hb) as (v & Hstep & Hrs).
  destruct Hstep as [Hcall _]. rewrite pair_payload_text in Hcall.
  exists v. split; [done|]. split; [exact Hcall|].
  intros s t -> ->. exact Hcall.
Qed.

(** C8.  Every request that the comparator sends for row [i >= 1] carries
    as its one user message the comparison prompt, two line feeds, the
    label ["Narrative: "] that the annotator puts before any payload, and
    then ["First: "], annotation [i - 1], a line feed, ["Second: "] and
    annotation [i].  The annotations go into that text as they are when
    they are strings. *)
Theorem comparison_request_text narratives client prompt w :
  exists (worlds : nat -> World) results,
    process_narrative_pairs narratives client prompt w =
      (worlds (length narratives - 1)%nat, Ret results) /\
    worlds 0%nat = w /\
    forall i a b,
      narratives !! i = Some a ->
      narratives !! S i = Some b ->
      exists evs req,
        worlds (S i) = extend evs (worlds i) /\
        (exists n, (1 <= n <= 3)%nat /\ requests_of evs = replicate n req) /\
        model req = "claude-3-5-sonnet-20241022" /\
        max_tokens req = 1000 /\
        messages req =
          [ {| role := "user";
               content :=
                 prompt +:+
                 String "010"%char
                   (String "010"%char
                      ("Narrative: " +:+ "First: " +:+ format a +:+
                       String "010"%char ("Second: " +:+ format b))) |} ] /\
        forall s t,
          a = VStr s ->
          b = VStr t ->
          messages req =
            [ {| role := "user";
                 content :=
                   prompt +:+
                   String "010"%char
                     (String "010"%char
                        ("Narrative: " +:+ "First: " +:+ s +:+
                         String "010"%char ("Second: " +:+ t))) |} ].
Proof.
  rewrite process_narrative_pairs_refines.
  destruct narratives as [|first rest].
  { exists (fun _ => w), []. repeat split; try done. }
  destruct (compare_adjacent_run client prompt rest first w)
    as (worlds & rs & Hrun & H0 & Hlen & Hsteps).
  exists worlds, (VStr "" :: rs).
  split; [|split; [done|]].
  { unfold comparator_spec. rewrite (bind_ret _ _ w _ rs Hrun).
    simpl. by rewrite Nat.sub_0_r. }
  intros i a b Ha Hb. simpl in Hb.
  destruct (Hsteps i a b Ha Hb) as (v & (_ & _ & _ & k & Hk & Hafter) & _).
  eexists _, (single_request prompt (pair_payload a b)).
  split; [exact Hafter|]. split.
  { exists (S k). split; [lia|].
    rewrite requests_of_app, requests_of_failed_attempts. simpl.
    clear. induction k as [|k IH]; simpl; [done | by rewrite IH]. }
  rewrite single_request_text, pair_payload_text.
  split; [done|]. split; [done|]. split; [done|].
  by intros s t -> ->.
Qed.

(** ** Columns *)

Lemma column_lookup_Some key cols cells :
  column_lookup key cols = Some cells -> (key, cells) ∈ cols.
Proof.
  induction cols as [|[label c] cols IH]; simpl; [done|].
  case_bool_decide as Hl.
  - intros [= <-]. subst. by left.
  - intros H. right. by apply IH.
Qed.

Lemma column_lookup_None key cols :
  column_lookup key cols = None <-> key ∉ cols.*1.
Proof.
  induction cols as [|[label c] cols IH]; simpl.
  - split; [intros _; apply not_elem_of_nil | done].
  - case_bool_decide as Hl.
    + subst. split; [done|]. intros H. exfalso. apply H. by left.
    + rewrite IH, not_elem_of_cons. split; [by intros | by intros [_ ?]].
Qed.

Lemma column_lookup_replace key key' cells cols :
  column_lookup key'
    ((fun c => if bool_decide (c.1 = key) then (key, cells) else c) <$> cols) =
  if bool_decide (key = key')
  then (if bool_decide (key ∈ cols.*1) then Some cells else None)
  else column_lookup key' cols.
Proof.
  induction cols as [|[label c] cols IH].
  - simpl. by repeat case_bool_decide.
  - rewrite fmap_cons. cbn [fst]. destruct (decide (label = key)) as [->|Hl].
    + rewrite (bool_decide_eq_true_2 (key = key)) by done.
      cbn [column_lookup]. case_bool_decide; [|done].
      rewrite bool_decide_eq_true_2; [done|]. by left.
    + rewrite (bool_decide_eq_false_2 (label = key)) by done.
      cbn [column_lookup]. rewrite IH.
      destruct (decide (key = key')) as [<-|Hk].
      * rewrite (bool_decide_eq_false_2 (label = key)) by done.
        rewrite (bool_decide_eq_true_2 (key = key)) by done.
        simpl. apply option_eq; intros x.
        repeat case_bool_decide; try done.
        -- exfalso. match goal with H : _ ∉ _ |- _ => apply H end. by right.
        -- match goal with H : _ ∈ _ :: _ |- _ =>
             apply elem_of_cons in H as [?|?]; done end.
      * by rewrite !(bool_decide_eq_false_2 (key = key')) by done.
Qed.

Lemma column_lookup_append key key' cells cols :
  column_lookup key' (cols ++ [(key, cells)]) =
  match column_lookup key' cols with
  | Some c => Some c
  | None => if bool_decide (key = key') then Some cells else None
  end.
Proof.
  induction cols as [|[label c] cols IH]; [done|].
  cbn [app column_lookup]. rewrite IH. by destruct (bool_decide (label = key')).
Qed.

Lemma column_lookup_set_same key cells cols :
  column_lookup key (set_column key cells cols) = Some cells.
Proof.
  unfold set_column. case_bool_decide as Hin.
  - rewrite column_lookup_replace.
    by rewrite !bool_decide_eq_true_2 by done.
  - rewrite column_lookup_append.
    apply column_lookup_None in Hin. rewrite Hin.
    by rewrite bool_decide_eq_true_2.
Qed.

Lemma column_lookup_set_other key key' cells cols :
  key <> key' ->
  column_lookup key' (set_column key cells cols) = column_lookup key' cols.
Proof.
  intros Hne. unfold set_column. case_bool_decide as Hin.
  - rewrite column_lookup_replace. by rewrite bool_decide_eq_false_2.
  - rewrite column_lookup_append. rewrite bool_decide_eq_false_2 by done.
    by destruct (column_lookup key' cols).
Qed.

Lemma set_column_lengths n key cells cols :
  length cells = n ->
  Forall (fun c => length c.2 = n) cols ->
  Forall (fun c => length c.2 = n) (set_column key cells cols).
Proof.
  intros Hlen Hwf. unfold set_column. case_bool_decide.
  - apply Forall_fmap. eapply Forall_impl; [exact Hwf|].
    intros [label c] Hc. simpl. by case_bool_decide.
  - apply Forall_app. split; [done|]. by constructor.
Qed.

Lemma column_is_set key cells cols : column_is key cells (set_column key cells cols).
Proof.
  unfold column_is, set_column. case_bool_decide as Hin.
  - split.
    + rewrite <- list_fmap_compose.
      apply list_elem_of_fmap in Hin as ([label c] & -> & Hin).
      apply list_elem_of_fmap. exists (label, c). split; [|done].
      simpl. by rewrite bool_decide_eq_true_2.
    + intros c (c' & -> & Hc')%list_elem_of_fmap.
      case_bool_decide; [done|]. intros; by subst.
  - split.
    + rewrite fmap_app. apply elem_of_app. right. by left.
    + intros c [Hc | Hc%list_elem_of_singleton]%elem_of_app Hk; [|done].
      exfalso. apply Hin. apply list_elem_of_fmap. by exists c.
Qed.

Lemma column_is_set_other key key' cells cells' cols :
  key <> key' ->
  column_is key cells cols ->
  column_is key cells (set_column key' cells' cols).
Proof.
  intros Hne [Hin Hall]. unfold column_is, set_column. case_bool_decide as Hin'.
  - split.
    + apply list_elem_of_fmap in Hin as ([label c] & -> & Hin).
      rewrite <- list_fmap_compose. apply list_elem_of_fmap.
      exists (label, c). split; [|done]. simpl.
      by rewrite bool_decide_eq_false_2.
    + intros c (c' & -> & Hc')%list_elem_of_fmap.
      case_bool_decide; simpl; [congruence|]. by apply Hall.
  - split.
    + rewrite fmap_app. apply elem_of_app. by left.
    + intros c [Hc | Hc%list_elem_of_singleton]%elem_of_app Hk.
      * by apply Hall.
      * rewrite Hc in Hk. simpl in Hk. congruence.
Qed.

Lemma set_column_id key cells cols :
  column_is key cells cols -> set_column key cells cols = cols.
Proof.
  intros [Hin Hall]. unfold set_column. rewrite bool_decide_eq_true_2 by done.
  clear Hin. induction cols as [|c cols IH]; [done|].
  rewrite fmap_cons, IH.
  - case_bool_decide as Hk; [|done].
    f_equal. symmetry. apply Hall; [by left | done].
  - intros c' Hc'. apply Hall. by right.
Qed.

(** Writing the two derived columns a second time, with the same cells,
    changes nothing. *)
Lemma set_derived_twice ann pers cols :
  set_column persistence_column pers
    (set_column annotation_column ann
       (set_column persistence_column pers
          (set_column annotation_column ann cols))) =
  set_column persistence_column pers (set_column annotation_column ann cols).
Proof.
  rewrite (set_column_id annotation_column).
  - apply set_column_id, column_is_set.
  - apply column_is_set_other; [done | apply column_is_set].
Qed.

(** ** Runs of the two passes *)

(** The annotation pass never raises: one string per cell, each of them
    an answer of the capability. *)
Lemma series_apply_run client prompt cells : forall w,
  exists evs annotations,
    series_apply (fun x => process_single_narrative x client prompt 3 1) cells w =
      (extend evs w, Ret annotations) /\
    length annotations = length cells /\
    Forall (fun v => is_str v /\ answer_of client v) annotations.
Proof.
  induction cells as [|x cells IH]; intros w.
  - exists [], []. by rewrite extend_nil.
  - destruct (process_single_narrative_answer x client prompt 3 1 w)
      as (evs1 & v & Hrun & Hstr & Hans); [lia | lia | apply default_sleepable |].
    destruct (IH (extend evs1 w)) as (evs2 & vs & Hrest & Hlen & Hall).
    exists (evs1 ++ evs2), (v :: vs). split; [|split].
    + cbn [series_apply]. rewrite (bind_ret _ _ _ _ _ Hrun).
      rewrite (bind_ret _ _ _ _ _ Hrest). by rewrite extend_extend.
    + simpl. by rewrite Hlen.
    + by constructor.
Qed.

Lemma compare_adjacent_total client prompt rest : forall prev w,
  exists evs rs,
    compare_adjacent client prompt prev rest w = (extend evs w, Ret rs) /\
    length rs = length rest /\
    Forall (fun v => is_str v /\ answer_of client v) rs.
Proof.
  induction rest as [|next rest IH]; intros prev w.
  - exists [], []. by rewrite extend_nil.
  - destruct (process_single_narrative_answer (pair_payload prev next) client
                prompt 3 1 w) as (evs1 & v & Hrun & Hstr & Hans);
      [lia | lia | apply default_sleepable |].
    destruct (IH next (extend evs1 w)) as (evs2 & vs & Hrest & Hlen & Hall).
    exists (evs1 ++ evs2), (v :: vs). split; [|split].
    + cbn [compare_adjacent]. rewrite (bind_ret _ _ _ _ _ Hrun).
      rewrite (bind_ret _ _ _ _ _ Hrest). by rewrite extend_extend.
    + simpl. by rewrite Hlen.
    + by constructor.
Qed.

(** The comparison pass never raises either: one string per annotation,
    the first one empty, the others answers of the capability. *)
Lemma process_narrative_pairs_total narratives client prompt w :
  exists evs results,
    process_narrative_pairs narratives client prompt w =
      (extend evs w, Ret results) /\
    length results = length narratives /\
    Forall is_str results /\
    (forall v, head results = Some v -> v = VStr "") /\
    Forall (answer_of client) (tail results).
Proof.
  rewrite process_narrative_pairs_refines.
  destruct narratives as [|first rest].
  - exists [], []. rewrite extend_nil. by repeat split.
  - destruct (compare_adjacent_total client prompt rest first w)
      as (evs & rs & Hrun & Hlen & Hall).
    exists evs, (VStr "" :: rs). split; [|split; [|split; [|split]]].
    + unfold comparator_spec. by rewrite (bind_ret _ _ _ _ _ Hrun).
    + simpl. by rewrite Hlen.
    + constructor; [by exists ""|].
      eapply Forall_impl; [exact Hall|]. by intros v [? _].
    + by intros v [= <-].
    + simpl. eapply Forall_impl; [exact Hall|]. by intros v [_ ?].
Qed.

(** ** A run of the driver *)

Lemma df_wf_column df key cells :
  df_wf df -> column_lookup key (columns df) = Some cells ->
  length cells = nrows df.
Proof.
  intros Hwf Hcol%column_lookup_Some.
  unfold df_wf in Hwf. rewrite Forall_forall in Hwf.
  exact (Hwf _ Hcol).
Qed.

Lemma df_setitem_ok df key cells w :
  length cells = nrows df ->
  df_setitem df key cells w =
    (w, Ret {| nrows := nrows df; columns := set_column key cells (columns df) |}).
Proof. intros Hlen. unfold df_setitem. by rewrite bool_decide_eq_true_2. Qed.

(** On a readable table with a [Narrative] column the driver runs to the
    end: the annotation pass over that column, the comparison pass over
    its result, and one write of the table with the two columns set. *)
Lemma process_narratives_run Anthropic path key np cp w df narratives :
  files w !! path = Some df ->
  df_wf df ->
  column_lookup "Narrative" (columns df) = Some narratives ->
  exists evs1 evs2 annotations persistence,
    series_apply (fun x => process_single_narrative x (Anthropic key) np 3 1)
      narratives w = (extend evs1 w, Ret annotations) /\
    process_narrative_pairs annotations (Anthropic key) cp (extend evs1 w) =
      (extend evs2 (extend evs1 w), Ret persistence) /\
    length annotations = nrows df /\
    length persistence = nrows df /\
    process_narratives Anthropic path key np cp w =
      ({| trace := trace w ++ evs1 ++ evs2;
          files :=
            <[path := {| nrows := nrows df;
                         columns :=
                           set_column persistence_column persistence
                             (set_column annotation_column annotations
                                (columns df)) |}]> (files w);
          sleep_limit := sleep_limit w |},
       Ret tt).
Proof.
  intros Hfile Hwf Hcol.
  destruct (series_apply_run (Anthropic key) np narratives w)
    as (evs1 & ann & Hann & Hlen1 & _).
  destruct (process_narrative_pairs_total ann (Anthropic key) cp (extend evs1 w))
    as (evs2 & pers & Hpers & Hlen2 & _).
  pose proof (df_wf_column df _ _ Hwf Hcol) as Hn.
  exists evs1, evs2, ann, pers.
  split; [done|]. split; [done|]. split; [lia|]. split; [lia|].
  unfold process_narratives.
  rewrite (bind_ret _ _ w w df) by (unfold read_csv; by rewrite Hfile).
  rewrite (bind_ret _ _ w w narratives) by (unfold df_getitem; by rewrite Hcol).
  rewrite (bind_ret _ _ _ _ _ Hann).
  assert (length ann = nrows df) as Hl1 by lia.
  assert (length pers = nrows df) as Hl2 by lia.
  rewrite (bind_ret _ _ _ _ _ (df_setitem_ok df _ ann _ Hl1)).
  rewrite (bind_ret _ _ _ (extend evs1 w) ann).
  2:{ unfold df_getitem. cbn [columns].
      by rewrite (column_lookup_set_same annotation_column). }
  rewrite (bind_ret _ _ _ _ _ Hpers).
  rewrite (bind_ret _ _ _ _ _ (df_setitem_ok (mkDataFrame (nrows df) _) _ pers _ Hl2)).
  unfold to_csv. simpl. by rewrite <- app_assoc.
Qed.

(** ** Deterministic capabilities *)

Lemma world_independent_ret {A} (a : A) : world_independent (mret a : Py A).
Proof. intros w w'. exists [], (Ret a). by rewrite !extend_nil. Qed.

Lemma world_independent_raise {A} e : world_independent (raise e : Py A).
Proof. intros w w'. exists [], (Raise e). by rewrite !extend_nil. Qed.

Lemma world_independent_bind {A B} (m : Py A) (f : A -> Py B) :
  world_independent m ->
  (forall a, world_independent (f a)) ->
  world_independent (m ≫= f).
Proof.
  intros Hm Hf w w'. destruct (Hm w w') as (evs & [a|e] & H1 & H2).
  - destruct (Hf a (extend evs w) (extend evs w')) as (evs' & r & H3 & H4).
    exists (evs ++ evs'), r.
    rewrite (bind_ret _ _ _ _ _ H1), (bind_ret _ _ _ _ _ H2).
    by rewrite H3, H4, !extend_extend.
  - exists evs, (Raise e).
    by rewrite (bind_raise _ _ _ _ _ H1), (bind_raise _ _ _ _ _ H2).
Qed.

Lemma world_independent_create client req :
  deterministic client -> world_independent (messages_create client req).
Proof.
  intros Hdet w w'. exists [EvCreate req], (Ret (client (trace w) req)).
  unfold messages_create. rewrite !log_extend.
  by rewrite (Hdet (trace w') (trace w)).
Qed.

Lemma sleep_refusal_short w w' secs :
  secs <= 2 -> sleep_refusal w secs = sleep_refusal w' secs.
Proof.
  intros Hs. unfold sleep_refusal.
  destruct ((secs <? - pytime_max) || (pytime_max <? secs)); [done|].
  destruct (Z.ltb_spec secs 0); [done|].
  pose proof (longest_sleep_bounds w). pose proof (longest_sleep_bounds w').
  by rewrite !(proj2 (Z.leb_le secs _)) by lia.
Qed.

Lemma world_independent_sleep secs :
  secs <= 2 -> world_independent (sleep secs).
Proof.
  intros Hs w w'. unfold sleep. rewrite (sleep_refusal_short w w' secs Hs).
  destruct (sleep_refusal w' secs) as [e|].
  - exists [], (Raise e). by rewrite !extend_nil.
  - exists [EvSleep secs], (Ret tt). by rewrite !log_extend.
Qed.

Lemma world_independent_retry_loop narrative client prompt max_retries delay :
  deterministic client ->
  forall attempts,
    (forall attempt,
       attempt ∈ attempts -> attempt <> max_retries - 1 ->
       delay * (attempt + 1) <= 2) ->
    world_independent (retry_loop narrative client prompt max_retries delay attempts).
Proof.
  intros Hdet attempts. induction attempts as [|attempt rest IH]; intros Hshort.
  - apply world_independent_ret.
  - cbn [retry_loop]. apply world_independent_bind.
    + by apply world_independent_create.
    + intros [text|e]; [apply world_independent_ret|].
      destruct (Z.eqb_spec attempt (max_retries - 1)) as [|Hne];
        [apply world_independent_ret|].
      apply world_independent_bind.
      * apply world_independent_sleep. apply Hshort; [by left | done].
      * intros _. apply IH. intros a Ha. apply Hshort. by right.
Qed.

(** With the default arguments the sleeps last one and two seconds. *)
Lemma world_independent_default narrative client prompt :
  deterministic client ->
  world_independent (process_single_narrative narrative client prompt 3 1).
Proof.
  intros Hdet. apply world_independent_retry_loop; [done|].
  intros attempt Hin Hne. change (attempt ∈ [0; 1; 2]) in Hin.
  repeat (apply elem_of_cons in Hin as [-> | Hin]); try lia.
  by apply elem_of_nil in Hin.
Qed.

Lemma world_independent_series_apply (f : Value -> Py Value) cells :
  (forall x, world_independent (f x)) ->
  world_independent (series_apply f cells).
Proof.
  intros Hf. induction cells as [|x cells IH].
  - apply world_independent_ret.
  - cbn [series_apply]. apply world_independent_bind; [done|]. intros y.
    apply world_independent_bind; [done|]. intros ys.
    apply world_independent_ret.
Qed.

Lemma world_independent_compare_adjacent client prompt rest :
  deterministic client ->
  forall prev, world_independent (compare_adjacent client prompt prev rest).
Proof.
  intros Hdet. induction rest as [|next rest IH]; intros prev.
  - apply world_independent_ret.
  - cbn [compare_adjacent]. apply world_independent_bind.
    + by apply world_independent_default.
    + intros r. apply world_independent_bind; [done|]. intros rs.
      apply world_independent_ret.
Qed.

Lemma world_independent_pairs narratives client prompt :
  deterministic client ->
  world_independent (process_narrative_pairs narratives client prompt).
Proof.
  intros Hdet w w'.
  rewrite !process_narrative_pairs_refines.
  revert w w'. change (world_independent (comparator_spec narratives client prompt)).
  destruct narratives as [|first rest]; [apply world_independent_ret|].
  apply world_independent_bind.
  - by apply world_independent_compare_adjacent.
  - intros rs. apply world_independent_ret.
Qed.

(** ** Capabilities that always answer *)

Lemma process_single_narrative_first_try narrative client prompt m delay w text :
  client (trace w) (single_request prompt narrative) = Returned text ->
  1 <= m ->
  process_single_narrative narrative client prompt m delay w =
    (extend [EvCreate (single_request prompt narrative)] w, Ret (VStr text)).
Proof.
  intros Hc Hm. unfold process_single_narrative, range.
  destruct (Z.to_nat m) as [|n] eqn:Hn; [lia|].
  rewrite <- cons_seq, fmap_cons. by apply retry_loop_returned.
Qed.

Lemma series_apply_first_try client prompt cells :
  always_succeeds client ->
  forall w, exists annotations,
    series_apply (fun x => process_single_narrative x client prompt 3 1) cells w =
      (extend (EvCreate <$> (single_request prompt <$> cells)) w, Ret annotations).
Proof.
  intros Hok. induction cells as [|x cells IH]; intros w.
  - exists []. by rewrite extend_nil.
  - destruct (Hok (trace w) (single_request prompt x)) as [text Hc].
    assert (1 <= 3) as H3 by lia.
    pose proof (process_single_narrative_first_try x client prompt 3 1 w text Hc
                  H3) as Hrun.
    destruct (IH (extend [EvCreate (single_request prompt x)] w)) as [vs Hrest].
    exists (VStr text :: vs). cbn [series_apply].
    rewrite (bind_ret _ _ _ _ _ Hrun), (bind_ret _ _ _ _ _ Hrest).
    by rewrite extend_extend.
Qed.

Lemma compare_adjacent_first_try client prompt rest :
  always_succeeds client ->
  forall prev w, exists rs,
    compare_adjacent client prompt prev rest w =
      (extend (EvCreate <$> pair_requests prompt (prev :: rest)) w, Ret rs).
Proof.
  intros Hok. induction rest as [|next rest IH]; intros prev w.
  - exists []. by rewrite extend_nil.
  - destruct (Hok (trace w) (single_request prompt (pair_payload prev next)))
      as [text Hc].
    assert (1 <= 3) as H3 by lia.
    pose proof (process_single_narrative_first_try (pair_payload prev next) client
                  prompt 3 1 w text Hc H3) as Hrun.
    destruct (IH next (extend [EvCreate (single_request prompt
                                           (pair_payload prev next))] w))
      as [vs Hrest].
    exists (VStr text :: vs). cbn [compare_adjacent].
    rewrite (bind_ret _ _ _ _ _ Hrun), (bind_ret _ _ _ _ _ Hrest).
    by rewrite extend_extend.
Qed.

Lemma process_narrative_pairs_first_try narratives client prompt w :
  always_succeeds client ->
  exists results,
    process_narrative_pairs narratives client prompt w =
      (extend (EvCreate <$> pair_requests prompt narratives) w, Ret results).
Proof.
  intros Hok. rewrite process_narrative_pairs_refines.
  destruct narratives as [|first rest].
  - exists []. by rewrite extend_nil.
  - destruct (compare_adjacent_first_try client prompt rest Hok first w)
      as [rs Hrun].
    exists (VStr "" :: rs). unfold comparator_spec.
    by rewrite (bind_ret _ _ _ _ _ Hrun).
Qed.

Lemma pair_requests_length prompt annotations :
  length (pair_requests prompt annotations) = (length annotations - 1)%nat.
Proof.
  unfold pair_requests. rewrite length_zip_with.
  destruct annotations; cbn [length tail]; lia.
Qed.

Lemma requests_of_creates reqs : requests_of (EvCreate <$> reqs) = reqs.
Proof.
  induction reqs as [|r reqs IH]; [done|].
  rewrite fmap_cons. change (r :: requests_of (EvCreate <$> reqs) = r :: reqs).
  by rewrite IH.
Qed.

Lemma sleeps_of_creates reqs : sleeps_of (EvCreate <$> reqs) = [].
Proof.
  induction reqs as [|r reqs IH]; [done|].
  rewrite fmap_cons. change (sleeps_of (EvCreate <$> reqs) = []). done.
Qed.

Lemma answer_of_always_fails client v :
  always_fails client -> answer_of client v -> is_error_marker v.
Proof.
  intros Hfail (tr & req & [(text & Hc & ->) | (e & Hc & ->)]).
  - destruct (Hfail tr req) as [e He]. congruence.
  - by exists e.
Qed.

(** ** Claims about the driver *)

(** C4.  The table written back has the rows of the table read, in the
    same order: the same number of rows, one cell per row in every
    column, the [Narrative] column cell for cell as it was, and so is
    every other column except the two derived ones. *)
Theorem rows_preserved Anthropic path key np cp w df narratives :
  files w !! path = Some df ->
  df_wf df ->
  column_lookup "Narrative" (columns df) = Some narratives ->
  exists w' df',
    process_narratives Anthropic path key np cp w = (w', Ret tt) /\
    files w' !! path = Some df' /\
    nrows df' = nrows df /\
    df_wf df' /\
    column_lookup "Narrative" (columns df') = Some narratives /\
    length narratives = nrows df /\
    forall label,
      label <> annotation_column ->
      label <> persistence_column ->
      column_lookup label (columns df') = column_lookup label (columns df).
Proof.
  intros Hfile Hwf Hcol.
  destruct (process_narratives_run Anthropic path key np cp w df narratives
              Hfile Hwf Hcol)
    as (evs1 & evs2 & ann & pers & _ & _ & Hl1 & Hl2 & Hrun).
  eexists _, _. split; [exact Hrun|].
  split; [apply lookup_insert_eq|]. split; [done|].
  split; [|split; [|split]].
  - unfold df_wf. cbn [nrows columns].
    by repeat apply set_column_lengths.
  - cbn [columns]. by rewrite !column_lookup_set_other.
  - by eapply df_wf_column.
  - intros label Ha Hp. cbn [columns].
    by rewrite !column_lookup_set_other.
Qed.

Lemma rows_preserved_witness :
  exists w' df',
    process_narratives (fun _ => echo_client) "stories.tsv" "" "Annotate."
      "Compare." sample_world = (w', Ret tt) /\
    files w' !! "stories.tsv" = Some df' /\
    nrows df' = nrows sample_table /\
    df_wf df' /\
    column_lookup "Narrative" (columns df') =
      Some [VStr "A dog slept."; VStr "A cat helped."; VStr "A bird attacked."] /\
    length [VStr "A dog slept."; VStr "A cat helped."; VStr "A bird attacked."] =
      nrows sample_table /\
    forall label,
      label <> annotation_column ->
      label <> persistence_column ->
      column_lookup label (columns df') =
      column_lookup label (columns sample_table).
Proof.
  apply (rows_preserved (fun _ => echo_client) "stories.tsv" "" "Annotate."
           "Compare." sample_world sample_table).
  - reflexivity.
  - repeat constructor.
  - reflexivity.
Defined.

(** C6.  A table that cannot be read, or that has no [Narrative] column,
    makes the driver raise with the world exactly as it was: nothing
    requested, nothing written.  Failing requests, on the contrary, never
    stop a run on a readable table: it ends normally and the failures show
    only as cells of the written table, which hold either text that the
    capability returned or an ["Error: ..."] marker (and only markers when
    every request fails). *)
Theorem structural_and_request_failures Anthropic path key np cp w :
  (files w !! path = None ->
     process_narratives Anthropic path key np cp w =
       (w, Raise (FileNotFoundError path))) /\
  (forall df,
     files w !! path = Some df ->
     column_lookup "Narrative" (columns df) = None ->
     process_narratives Anthropic path key np cp w =
       (w, Raise (KeyError "Narrative"))) /\
  (forall df narratives,
     files w !! path = Some df ->
     df_wf df ->
     column_lookup "Narrative" (columns df) = Some narratives ->
     exists w' df' annotations persistence,
       process_narratives Anthropic path key np cp w = (w', Ret tt) /\
       files w' !! path = Some df' /\
       column_lookup annotation_column (columns df') = Some annotations /\
       column_lookup persistence_column (columns df') = Some persistence /\
       Forall is_str annotations /\
       Forall is_str persistence /\
       Forall (answer_of (Anthropic key)) annotations /\
       (forall v, head persistence = Some v -> v = VStr "") /\
       Forall (answer_of (Anthropic key)) (tail persistence) /\
       (always_fails (Anthropic key) ->
          Forall is_error_marker annotations /\
          Forall is_error_marker (tail persistence))).
Proof.
  split; [|split].
  - intros Hfile. unfold process_narratives.
    apply (bind_raise _ _ w w). unfold read_csv. by rewrite Hfile.
  - intros df Hfile Hcol. unfold process_narratives.
    rewrite (bind_ret _ _ w w df) by (unfold read_csv; by rewrite Hfile).
    apply (bind_raise _ _ w w). unfold df_getitem. by rewrite Hcol.
  - intros df narratives Hfile Hwf Hcol.
    destruct (process_narratives_run Anthropic path key np cp w df narratives
                Hfile Hwf Hcol)
      as (evs1 & evs2 & ann & pers & Hann & Hpers & Hl1 & Hl2 & Hrun).
    destruct (series_apply_run (Anthropic key) np narratives w)
      as (evs1' & ann' & Hann' & _ & Hall1).
    assert (ann' = ann) as -> by congruence.
    destruct (process_narrative_pairs_total ann (Anthropic key) cp (extend evs1 w))
      as (evs2' & pers' & Hpers' & _ & Hstr2 & Hhead & Hall2).
    assert (pers' = pers) as -> by congruence.
    eexists _, _, ann, pers. split; [exact Hrun|].
    split; [apply lookup_insert_eq|]. cbn [columns].
    split; [by rewrite column_lookup_set_other, column_lookup_set_same|].
    split; [by rewrite column_lookup_set_same|].
    split; [eapply Forall_impl; [exact Hall1|]; by intros v [? _]|].
    split; [done|].
    split; [eapply Forall_impl; [exact Hall1|]; by intros v [_ ?]|].
    split; [done|]. split; [done|].
    intros Hfail. split.
    + eapply Forall_impl; [exact Hall1|].
      intros v [_ Hv]. by eapply answer_of_always_fails.
    + eapply Forall_impl; [exact Hall2|].
      intros v Hv. by eapply answer_of_always_fails.
Qed.

(** C10.  When the capability answers every request, a run over [N] rows
    sends first the [N] annotation requests, in row order, and then the
    [N - 1] comparison requests, in row order, and nothing else:
    [2N - 1] requests for [N >= 1], none for [N = 0], and no sleep. *)
Theorem request_count_and_order Anthropic path key np cp w df narratives :
  always_succeeds (Anthropic key) ->
  files w !! path = Some df ->
  df_wf df ->
  column_lookup "Narrative" (columns df) = Some narratives ->
  exists w' df' annotations evs,
    process_narratives Anthropic path key np cp w = (w', Ret tt) /\
    files w' !! path = Some df' /\
    column_lookup annotation_column (columns df') = Some annotations /\
    trace w' = trace w ++ evs /\
    evs = (EvCreate <$> (single_request np <$> narratives))
            ++ (EvCreate <$> pair_requests cp annotations) /\
    length (single_request np <$> narratives) = nrows df /\
    length (pair_requests cp annotations) = (nrows df - 1)%nat /\
    sleeps_of evs = [] /\
    Z.of_nat (length (requests_of evs)) =
      if bool_decide (nrows df = 0%nat) then 0 else 2 * Z.of_nat (nrows df) - 1.
Proof.
  intros Hok Hfile Hwf Hcol.
  destruct (process_narratives_run Anthropic path key np cp w df narratives
              Hfile Hwf Hcol)
    as (evs1 & evs2 & ann & pers & Hann & Hpers & Hl1 & Hl2 & Hrun).
  destruct (series_apply_first_try (Anthropic key) np narratives Hok w)
    as [ann' Hann'].
  rewrite Hann in Hann'. injection Hann' as Hevs1 _.
  apply app_inv_head in Hevs1.
  destruct (process_narrative_pairs_first_try ann (Anthropic key) cp
              (extend evs1 w) Hok) as [pers' Hpers'].
  rewrite Hpers in Hpers'. injection Hpers' as Hevs2 _.
  apply app_inv_head in Hevs2.
  pose proof (df_wf_column df _ _ Hwf Hcol) as Hn.
  eexists _, _, ann, (evs1 ++ evs2). split; [exact Hrun|].
  split; [apply lookup_insert_eq|]. cbn [columns trace].
  split; [by rewrite column_lookup_set_other, column_lookup_set_same|].
  split; [done|]. split; [by rewrite Hevs1, Hevs2|].
  split; [by rewrite length_fmap|].
  split; [rewrite pair_requests_length; lia|].
  rewrite Hevs1, Hevs2. split.
  - by rewrite sleeps_of_app, !sleeps_of_creates.
  - rewrite requests_of_app, !requests_of_creates, length_app, length_fmap.
    rewrite pair_requests_length, Hn, Hl1.
    case_bool_decide; lia.
Qed.

Lemma request_count_and_order_witness :
  exists w' df' annotations evs,
    process_narratives (fun _ => constant_client "roles") "stories.tsv" "" "Annotate."
      "Compare." sample_world = (w', Ret tt) /\
    files w' !! "stories.tsv" = Some df' /\
    column_lookup annotation_column (columns df') = Some annotations /\
    trace w' = trace sample_world ++ evs /\
    evs = (EvCreate <$> (single_request "Annotate." <$>
             [VStr "A dog slept."; VStr "A cat helped."; VStr "A bird attacked."]))
            ++ (EvCreate <$> pair_requests "Compare." annotations) /\
    length (single_request "Annotate." <$>
             [VStr "A dog slept."; VStr "A cat helped."; VStr "A bird attacked."]) =
      nrows sample_table /\
    length (pair_requests "Compare." annotations) = (nrows sample_table - 1)%nat /\
    sleeps_of evs = [] /\
    Z.of_nat (length (requests_of evs)) =
      if bool_decide (nrows sample_table = 0%nat) then 0
      else 2 * Z.of_nat (nrows sample_table) - 1.
Proof.
  apply (request_count_and_order (fun _ => constant_client "roles") "stories.tsv" ""
           "Annotate." "Compare." sample_world sample_table).
  - intros tr req. exists "roles". reflexivity.
  - reflexivity.
  - repeat constructor.
  - reflexivity.
Defined.

(** C7.  A table that already carries the two derived columns is
    processed like any other: the run ends normally, the [Narrative]
    column stays as it was, and both derived columns are overwritten with
    what the two passes compute from the [Narrative] column (the old
    derived cells are never read).  If the capability is a function of
    the request alone, a fresh run over any table with the same narratives
    puts the same cells in the derived columns, and a table that is the
    output of such a run is written back unchanged. *)
Theorem rerun_overwrites Anthropic path key np cp w df narratives old_ann old_pers :
  files w !! path = Some df ->
  df_wf df ->
  column_lookup "Narrative" (columns df) = Some narratives ->
  column_lookup annotation_column (columns df) = Some old_ann ->
  column_lookup persistence_column (columns df) = Some old_pers ->
  exists w' df' evs1 evs2 annotations persistence,
    process_narratives Anthropic path key np cp w = (w', Ret tt) /\
    files w' !! path = Some df' /\
    series_apply (fun x => process_single_narrative x (Anthropic key) np 3 1)
      narratives w = (extend evs1 w, Ret annotations) /\
    process_narrative_pairs annotations (Anthropic key) cp (extend evs1 w) =
      (extend evs2 (extend evs1 w), Ret persistence) /\
    column_lookup "Narrative" (columns df') = Some narratives /\
    column_lookup annotation_column (columns df') = Some annotations /\
    column_lookup persistence_column (columns df') = Some persistence /\
    (deterministic (Anthropic key) ->
     forall w0 df0,
       files w0 !! path = Some df0 ->
       df_wf df0 ->
       column_lookup "Narrative" (columns df0) = Some narratives ->
       exists w0' df0',
         process_narratives Anthropic path key np cp w0 = (w0', Ret tt) /\
         files w0' !! path = Some df0' /\
         column_lookup annotation_column (columns df0') = Some annotations /\
         column_lookup persistence_column (columns df0') = Some persistence /\
         (df = df0' -> df' = df)).
Proof.
  intros Hfile Hwf Hcol _ _.
  destruct (process_narratives_run Anthropic path key np cp w df narratives
              Hfile Hwf Hcol)
    as (evs1 & evs2 & ann & pers & Hann & Hpers & Hl1 & Hl2 & Hrun).
  eexists _, _, evs1, evs2, ann, pers. split; [exact Hrun|].
  split; [apply lookup_insert_eq|]. split; [done|]. split; [done|].
  cbn [columns].
  split; [by rewrite !column_lookup_set_other|].
  split; [by rewrite column_lookup_set_other, column_lookup_set_same|].
  split; [by rewrite column_lookup_set_same|].
  intros Hdet w0 df0 Hfile0 Hwf0 Hcol0.
  destruct (process_narratives_run Anthropic path key np cp w0 df0 narratives
              Hfile0 Hwf0 Hcol0)
    as (evs1' & evs2' & ann0 & pers0 & Hann0 & Hpers0 & Hl1' & Hl2' & Hrun0).
  assert (ann0 = ann) as ->.
  { destruct (world_independent_series_apply
                (fun x => process_single_narrative x (Anthropic key) np 3 1)
                narratives
                (fun x => world_independent_default x (Anthropic key) np Hdet)
                w w0)
      as (evs & r & H1 & H2).
    congruence. }
  assert (pers0 = pers) as ->.
  { destruct (world_independent_pairs ann (Anthropic key) cp Hdet
                (extend evs1 w) (extend evs1' w0)) as (evs & r & H1 & H2).
    congruence. }
  eexists _, _. split; [exact Hrun0|].
  split; [apply lookup_insert_eq|]. cbn [columns].
  split; [by rewrite column_lookup_set_other, column_lookup_set_same|].
  split; [by rewrite column_lookup_set_same|].
  intros ->. cbn [nrows columns]. by rewrite set_derived_twice.
Qed.

Lemma rerun_overwrites_witness :
  exists w' df',
    process_narratives (fun _ => echo_client) "stories.tsv" "" "Annotate."
      "Compare." annotated_world = (w', Ret tt) /\
    files w' !! "stories.tsv" = Some df' /\
    column_lookup "Narrative" (columns df') =
      Some [VStr "A dog slept."; VStr "A cat helped."].
Proof.
  destruct (rerun_overwrites (fun _ => echo_client) "stories.tsv" "" "Annotate."
              "Compare." annotated_world annotated_table
              [VStr "A dog slept."; VStr "A cat helped."]
              [VStr "old"; VStr "Error: timeout"] [VStr ""; VStr "stale"]
              eq_refl
              ltac:(repeat constructor) eq_refl eq_refl eq_refl)
    as (w' & df' & _ & _ & _ & _ & Hrun & Hfile & _ & _ & Hcol & _).
  exists w', df'. split; [exact Hrun|]. split; [exact Hfile | exact Hcol].
Defined.

(** ** The scenario of the specification, run *)

Example scenario_three_rows :
  let r := process_narratives (fun _ => echo_client) "stories.tsv" "" "Annotate."
             "Compare." sample_world in
  r.2 = Ret tt /\
  (nrows <$> files r.1 !! "stories.tsv") = Some 3%nat /\
  ((fun df => (columns df).*1) <$> files r.1 !! "stories.tsv") =
    Some ["Id"; "Narrative"; "Narrative_roles_and_salient_elements";
          "Elements_persistence"] /\
  ((fun df => column_lookup persistence_column (columns df) ≫= head)
     <$> files r.1 !! "stories.tsv") = Some (Some (VStr "")) /\
  length (requests_of (trace r.1)) = 5%nat.
Proof. vm_compute. repeat split. Qed.

Example scenario_rerun_same_file :
  let run := process_narratives (fun _ => echo_client) "stories.tsv" "" "Annotate."
               "Compare." in
  files (run (run sample_world).1).1 !! "stories.tsv" =
  files (run sample_world).1 !! "stories.tsv".
Proof. vm_compute. reflexivity. Qed.

Example scenario_negative_delay_raises :
  (process_single_narrative (VStr "A dog slept.") (failing_client "boom")
     "Annotate." 3 (-1) empty_world).2 =
  Raise (ValueError "sleep length must be non-negative").
Proof. reflexivity. Qed.

(** ** More about [process_single_narrative] *)

Lemma sleep_refusal_None_inv w secs :
  sleep_refusal w secs = None -> 0 <= secs <= longest_sleep w.
Proof.
  unfold sleep_refusal.
  destruct ((secs <? - pytime_max) || (pytime_max <? secs)); [done|].
  destruct (Z.ltb_spec secs 0); [done|].
  destruct (Z.leb_spec secs (longest_sleep w)); [lia | done].
Qed.

Lemma sleep_refusal_negative w secs :
  secs < 0 ->
  sleep_refusal w secs =
    Some (if secs <? - pytime_max
          then OverflowError "timestamp too large to convert to C _PyTime_t"
          else ValueError "sleep length must be non-negative").
Proof.
  intros Hs. unfold sleep_refusal. rewrite pytime_max_value.
  destruct (Z.ltb_spec secs (Z.opp 9223372036)); [done|].
  rewrite (proj2 (Z.ltb_ge 9223372036 secs)) by lia.
  by rewrite (proj2 (Z.ltb_lt secs 0)) by lia.
Qed.

(** The loop without any assumption on the back-off: it sends the same
    request at most once per attempt and ends in one of three ways, the
    third being a sleep that [time.sleep] refuses. *)
Lemma retry_loop_any narrative client prompt max_retries delay n : forall a w,
  max_retries = Z.of_nat (a + n) ->
  exists evs r k,
    retry_loop narrative client prompt max_retries delay (Z.of_nat <$> seq a n) w =
      (extend evs w, r) /\
    requests_of evs = replicate k (single_request prompt narrative) /\
    (k <= n)%nat /\
    ((r = Ret VNone /\ n = 0%nat /\ evs = []) \/
     (exists s, r = Ret (VStr s) /\ (0 < k)%nat) \/
     (exists exn,
        r = Raise exn /\
        sleep_refusal w (delay * Z.of_nat (a + k)) = Some exn /\
        (0 < k < n)%nat)).
Proof.
  induction n as [|n IH]; intros a w Hmax.
  { exists [], (Ret VNone), 0%nat. rewrite extend_nil. split; [done|].
    split; [done|]. split; [lia|]. by left. }
  rewrite <- cons_seq, fmap_cons.
  destruct (client (trace w) (single_request prompt narrative)) as [text|e] eqn:Hc.
  { exists [EvCreate (single_request prompt narrative)], (Ret (VStr text)), 1%nat.
    split; [by apply retry_loop_returned|]. split; [done|]. split; [lia|].
    right; left. exists text. split; [done | lia]. }
  destruct n as [|n].
  { exists [EvCreate (single_request prompt narrative)],
      (Ret (VStr ("Error: " +:+ e))), 1%nat.
    split; [apply retry_loop_raised_last; [done | lia]|].
    split; [done|]. split; [lia|]. right; left. eexists. split; [done | lia]. }
  destruct (sleep_refusal w (delay * (Z.of_nat a + 1))) as [exn|] eqn:Hsleep.
  { exists [EvCreate (single_request prompt narrative)], (Raise exn), 1%nat.
    split; [apply (retry_loop_raised_refused _ _ _ _ _ _ _ _ e);
            [done | lia | done]|].
    split; [done|]. split; [lia|]. right; right. exists exn.
    split; [done|]. split; [|lia].
    by replace (Z.of_nat (a + 1)) with (Z.of_nat a + 1) by lia. }
  apply sleep_refusal_None_inv in Hsleep.
  rewrite (retry_loop_raised_more _ _ _ _ _ _ _ _ e) by (done || lia).
  destruct (IH (S a) (extend [EvCreate (single_request prompt narrative);
                              EvSleep (delay * (Z.of_nat a + 1))] w))
    as (evs & r & k & Hrun & Hreqs & Hk & Hend); [lia|].
  exists ([EvCreate (single_request prompt narrative);
           EvSleep (delay * (Z.of_nat a + 1))] ++ evs), r, (S k).
  split; [by rewrite Hrun, extend_extend|].
  split; [by rewrite requests_of_app, Hreqs|]. split; [lia|].
  destruct Hend as [(_ & Hn & _) | [(s & -> & _) | (exn & -> & Hr & Hkn)]].
  - lia.
  - right; left. exists s. split; [done | lia].
  - right; right. exists exn. split; [done|]. split; [|lia].
    by replace (a + S k)%nat with (S a + k)%nat by lia.
Qed.

(** X1.  Whatever the arguments, a call sends the one request at most
    [max_retries] times, never touches the files, and ends in one of
    three ways: [None] with nothing sent (only when [max_retries <= 0]);
    a string after at least one request; or, after [k] requests with
    more attempts still allowed, the exception with which [time.sleep]
    refuses the back-off [delay * k].  That exception is the only kind
    that leaves the function, and it never does when every sleep up to
    [delay * (max_retries - 1)] is one the platform takes. *)
Theorem single_narrative_outcomes narrative client prompt m delay w :
  exists evs r k,
    process_single_narrative narrative client prompt m delay w = (extend evs w, r) /\
    requests_of evs = replicate k (single_request prompt narrative) /\
    Z.of_nat k <= Z.max m 0 /\
    files (extend evs w) = files w /\
    ((r = Ret VNone /\ m <= 0 /\ evs = []) \/
     (exists s, r = Ret (VStr s) /\ 1 <= m /\ (0 < k)%nat) \/
     (exists exn,
        r = Raise exn /\
        sleep_refusal w (delay * Z.of_nat k) = Some exn /\
        0 < Z.of_nat k < m /\
        (delay < 0 \/ longest_sleep w < delay * (m - 1)))).
Proof.
  destruct (Z.le_gt_cases m 0) as [Hm | Hm].
  - exists [], (Ret VNone), 0%nat. rewrite extend_nil.
    unfold process_single_narrative. rewrite range_nonpos by done.
    split; [done|]. split; [done|]. split; [lia|]. split; [done|]. by left.
  - destruct (retry_loop_any narrative client prompt m delay (Z.to_nat m) 0%nat w)
      as (evs & r & k & Hrun & Hreqs & Hk & Hend); [lia|].
    exists evs, r, k. split; [exact Hrun|]. split; [done|]. split; [lia|].
    split; [done|].
    destruct Hend as [(_ & Hn & _) | [(s & -> & Hk0) | (exn & -> & Hr & Hkn)]].
    + lia.
    + right; left. exists s. split; [done|]. split; [lia | done].
    + right; right. exists exn. split; [done|]. split; [done|]. split; [lia|].
      destruct (Z.lt_ge_cases delay 0) as [Hd | Hd]; [by left | right].
      destruct (sleep_refusal_Some _ _ _ Hr) as [Hneg | Hbig]; [nia|].
      assert (delay * Z.of_nat k <= delay * (m - 1))
        by (apply Z.mul_le_mono_nonneg_l; lia).
      lia.
Qed.

(** X2.  With a negative back-off unit and at least one attempt allowed,
    exactly one request is sent.  Its text comes back if it succeeds; if
    it fails, the marker comes back when it was the only attempt allowed,
    and otherwise the exception of [time.sleep] leaves the function and
    the failure of the capability is lost: [ValueError] for a length that
    the clock type holds, [OverflowError] for one below that. *)
Theorem negative_delay_single_request narrative client prompt m delay w :
  delay < 0 ->
  1 <= m ->
  process_single_narrative narrative client prompt m delay w =
    (extend [EvCreate (single_request prompt narrative)] w,
     match client (trace w) (single_request prompt narrative) with
     | Returned text => Ret (VStr text)
     | Raised e =>
         if m =? 1 then Ret (VStr ("Error: " +:+ e))
         else if delay <? -9223372036
         then Raise (OverflowError "timestamp too large to convert to C _PyTime_t")
         else Raise (ValueError "sleep length must be non-negative")
     end).
Proof.
  intros Hd Hm. unfold process_single_narrative, range.
  destruct (Z.to_nat m) as [|n] eqn:Hn; [lia|].
  rewrite <- cons_seq, fmap_cons.
  destruct (client (trace w) (single_request prompt narrative)) as [text|e] eqn:Hc.
  - by apply retry_loop_returned.
  - destruct (Z.eqb_spec m 1) as [-> | Hne].
    + by apply retry_loop_raised_last.
    + assert (Z.of_nat 0 <> m - 1) as Hnot by lia.
      assert (delay * (Z.of_nat 0 + 1) = delay) as Hsecs by lia.
      pose proof (sleep_refusal_negative w delay Hd) as Href.
      rewrite <- Hsecs in Href at 1.
      rewrite (retry_loop_raised_refused _ _ _ _ _ _ _ _ e _ Hc Hnot Href).
      rewrite pytime_max_value. change (Z.opp 9223372036) with (-9223372036).
      by destruct (delay <? -9223372036).
Qed.

Lemma negative_delay_single_request_witness :
  process_single_narrative (VStr "A dog slept.") (failing_client "boom")
    "Annotate." 3 (-1) empty_world =
    (extend [EvCreate (single_request "Annotate." (VStr "A dog slept."))] empty_world,
     match failing_client "boom" (trace empty_world)
             (single_request "Annotate." (VStr "A dog slept.")) with
     | Returned text => Ret (VStr text)
     | Raised e =>
         if 3 =? 1 then Ret (VStr ("Error: " +:+ e))
         else if -1 <? -9223372036
         then Raise (OverflowError "timestamp too large to convert to C _PyTime_t")
         else Raise (ValueError "sleep length must be non-negative")
     end).
Proof.
  apply (negative_delay_single_request (VStr "A dog slept.") (failing_client "boom")
           "Annotate." 3 (-1) empty_world); lia.
Defined.

(** X3.  A capability that would answer only after [k] failures is given
    up on when no more than [k] attempts are allowed and the back-off is
    one that [time.sleep] takes: exactly [max_retries] requests, then the
    marker of the last failure; the answer [p] is never asked for. *)
Theorem gives_up_before_recovery narrative client prompt m delay w k p :
  fails_then_succeeds client w (single_request prompt narrative) delay k p ->
  1 <= m <= Z.of_nat k ->
  0 <= delay ->
  delay * (m - 1) <= longest_sleep w ->
  exists e,
    client (trace w ++ failed_attempts (single_request prompt narrative) delay 1
                         (Z.to_nat m - 1))
      (single_request prompt narrative) = Raised e /\
    process_single_narrative narrative client prompt m delay w =
      (extend (failed_attempts (single_request prompt narrative) delay 1
                 (Z.to_nat m - 1)
                 ++ [EvCreate (single_request prompt narrative)]) w,
       Ret (VStr ("Error: " +:+ e))).
Proof.
  intros [Hbefore _] Hm Hd Hs.
  destruct (process_single_narrative_run narrative client prompt m delay w)
    as (k' & v & Hk' & Hrun & _ & Hend); [lia | done | done |].
  destruct (Hbefore k') as [e' He']; [lia|].
  destruct Hend as [(text & Hc & _) | (Hlast & e & Hc & ->)]; [congruence|].
  replace (Z.to_nat m - 1)%nat with k' by lia.
  exists e. split; [exact Hc | exact Hrun].
Qed.

Lemma gives_up_before_recovery_witness :
  exists e,
    flaky_client 2 "roles"
      (trace empty_world ++
         failed_attempts (single_request "Annotate." (VStr "A dog slept.")) 1 1
           (Z.to_nat 2 - 1))
      (single_request "Annotate." (VStr "A dog slept.")) = Raised e /\
    process_single_narrative (VStr "A dog slept.") (flaky_client 2 "roles")
      "Annotate." 2 1 empty_world =
      (extend (failed_attempts (single_request "Annotate." (VStr "A dog slept.")) 1 1
                 (Z.to_nat 2 - 1)
                 ++ [EvCreate (single_request "Annotate." (VStr "A dog slept."))])
         empty_world,
       Ret (VStr ("Error: " +:+ e))).
Proof.
  apply (gives_up_before_recovery (VStr "A dog slept.") (flaky_client 2 "roles")
           "Annotate." 2 1 empty_world 2 "roles").
  - split.
    + intros [|[|j]] Hj; [by exists "overloaded" | by exists "overloaded" | lia].
    + reflexivity.
  - lia.
  - lia.
  - apply Z.leb_le. vm_compute. reflexivity.
Defined.

(** A capability that answers by a function of the request: one request
    when the answer is text; when it is a failure, every allowed attempt
    is spent on the same failure. *)
Lemma process_single_narrative_answers_by narrative client f prompt m delay w :
  answers_by client f ->
  1 <= m ->
  0 <= delay ->
  delay * (m - 1) <= longest_sleep w ->
  process_single_narrative narrative client prompt m delay w =
    (extend
       (match f (single_request prompt narrative) with
        | Returned _ => [EvCreate (single_request prompt narrative)]
        | Raised _ =>
            failed_attempts (single_request prompt narrative) delay 1
              (Z.to_nat m - 1)
              ++ [EvCreate (single_request prompt narrative)]
        end) w,
     Ret (VStr (text_of (f (single_request prompt narrative))))).
Proof.
  intros Hf Hm Hd Hs.
  destruct (process_single_narrative_run narrative client prompt m delay w Hm Hd Hs)
    as (k & v & Hk & Hrun & Hfail & Hend).
  rewrite Hrun. rewrite !Hf in Hend.
  destruct (f (single_request prompt narrative)) as [text|e] eqn:Hfr.
  - assert (k = 0%nat) as ->.
    { destruct k as [|k]; [done|]. destruct (Hfail 0%nat) as [e He]; [lia|].
      rewrite Hf in He. congruence. }
    destruct Hend as [(t & [= <-] & ->) | (_ & e & [=] & _)]. done.
  - destruct Hend as [(t & [=] & _) | (Hlast & e' & [= <-] & ->)].
    by replace (Z.to_nat m - 1)%nat with k by lia.
Qed.

(** X4.  Against a capability whose answer depends on the request alone,
    with a back-off that [time.sleep] takes, the call costs one request
    when the answer is text and [max_retries] requests with all the
    sleeps in between when it is a failure; the result is the text, or
    the marker of that failure. *)
Theorem request_determined_cost narrative client f prompt m delay w :
  answers_by client f ->
  1 <= m ->
  0 <= delay ->
  delay * (m - 1) <= longest_sleep w ->
  exists evs,
    process_single_narrative narrative client prompt m delay w =
      (extend evs w, Ret (VStr (text_of (f (single_request prompt narrative))))) /\
    match f (single_request prompt narrative) with
    | Returned _ =>
        requests_of evs = [single_request prompt narrative] /\ sleeps_of evs = []
    | Raised _ =>
        requests_of evs = replicate (Z.to_nat m) (single_request prompt narrative) /\
        sleeps_of evs = (fun j => delay * Z.of_nat j) <$> seq 1 (Z.to_nat m - 1) /\
        sum_list (sleeps_of evs) = delay * triangle (m - 1)
    end.
Proof.
  intros Hf Hm Hd Hs. eexists. split.
  { by apply process_single_narrative_answers_by. }
  destruct (f (single_request prompt narrative)) as [text|e]; [done|].
  rewrite requests_of_app, sleeps_of_app.
  rewrite requests_of_failed_attempts, sleeps_of_failed_attempts.
  simpl. rewrite app_nil_r, sum_backoff.
  split; [|split; [done|]].
  - replace (Z.to_nat m) with (S (Z.to_nat m - 1)) at 2 by lia.
    generalize (Z.to_nat m - 1)%nat. intros k.
    induction k as [|k IH]; simpl; [done | by rewrite IH].
  - f_equal. f_equal. lia.
Qed.

Lemma request_determined_cost_witness :
  exists evs,
    process_single_narrative (VStr "A dog slept.") picky_client "Compare." 3 1
      empty_world =
      (extend evs empty_world,
       Ret (VStr (text_of (picky_client []
                             (single_request "Compare." (VStr "A dog slept.")))))) /\
    match picky_client [] (single_request "Compare." (VStr "A dog slept.")) with
    | Returned _ =>
        requests_of evs = [single_request "Compare." (VStr "A dog slept.")] /\
        sleeps_of evs = []
    | Raised _ =>
        requests_of evs =
          replicate (Z.to_nat 3) (single_request "Compare." (VStr "A dog slept.")) /\
        sleeps_of evs = (fun j => 1 * Z.of_nat j) <$> seq 1 (Z.to_nat 3 - 1) /\
        sum_list (sleeps_of evs) = 1 * triangle (3 - 1)
    end.
Proof.
  apply (request_determined_cost (VStr "A dog slept.") picky_client
           (picky_client []) "Compare." 3 1 empty_world).
  - intros tr req. reflexivity.
  - lia.
  - lia.
  - apply Z.leb_le. vm_compute. reflexivity.
Defined.

(** ** What a run costs, whatever the capability does *)

Lemma sum_list_app l1 l2 : sum_list (l1 ++ l2) = sum_list l1 + sum_list l2.
Proof. unfold sum_list. induction l1 as [|x l1 IH]; simpl; lia. Qed.

Lemma replicate_snoc_request k (req : Request) :
  replicate k req ++ [req] = replicate (S k) req.
Proof. induction k as [|k IH]; simpl; [done | by rewrite IH]. Qed.

(** One call with the default arguments: one to three times the same
    request, at most three seconds slept, a string back. *)
Lemma default_call client prompt x w :
  exists evs v n,
    process_single_narrative x client prompt 3 1 w = (extend evs w, Ret v) /\
    is_str v /\
    (1 <= n <= 3)%nat /\
    requests_of evs = replicate n (single_request prompt x) /\
    0 <= sum_list (sleeps_of evs) <= 3.
Proof.
  destruct (process_single_narrative_run x client prompt 3 1 w)
    as (k & v & Hk & Hrun & _ & Hend); [lia | lia | apply default_sleepable |].
  eexists _, v, (S k). split; [exact Hrun|]. split; [|split; [lia|split]].
  - destruct Hend as [(text & _ & ->) | (_ & e & _ & ->)]; by eexists.
  - rewrite requests_of_app, requests_of_failed_attempts.
    apply replicate_snoc_request.
  - rewrite sleeps_of_app, sleeps_of_failed_attempts. simpl.
    rewrite app_nil_r, sum_backoff.
    destruct k as [|[|[|k]]]; [done | done | done | lia].
Qed.

Lemma repeat_each_cons n counts req reqs :
  repeat_each (n :: counts) (req :: reqs) =
  replicate n req ++ repeat_each counts reqs.
Proof. reflexivity. Qed.

Lemma repeat_each_length counts : forall reqs,
  length counts = length reqs ->
  Forall (fun n => 1 <= n <= 3)%nat counts ->
  (length reqs <= length (repeat_each counts reqs) <= 3 * length reqs)%nat.
Proof.
  induction counts as [|n counts IH]; intros [|req reqs] Hlen Hall;
    try discriminate.
  - simpl. lia.
  - rewrite repeat_each_cons, length_app, length_replicate.
    apply Forall_cons in Hall as [Hn Hall].
    specialize (IH reqs ltac:(by injection Hlen) Hall). simpl. lia.
Qed.

Lemma pair_requests_cons prompt prev next rest :
  pair_requests prompt (prev :: next :: rest) =
  single_request prompt (pair_payload prev next)
    :: pair_requests prompt (next :: rest).
Proof. reflexivity. Qed.

Lemma series_apply_shape client prompt cells : forall w,
  exists evs annotations counts,
    series_apply (fun x => process_single_narrative x client prompt 3 1) cells w =
      (extend evs w, Ret annotations) /\
    length annotations = length cells /\
    length counts = length cells /\
    Forall (fun n => 1 <= n <= 3)%nat counts /\
    requests_of evs = repeat_each counts (single_request prompt <$> cells) /\
    0 <= sum_list (sleeps_of evs) <= 3 * Z.of_nat (length cells).
Proof.
  induction cells as [|x cells IH]; intros w.
  - exists [], [], []. rewrite extend_nil. repeat split; done.
  - destruct (default_call client prompt x w)
      as (evs1 & v & n & Hrun & _ & Hn & Hreq & Hsleep).
    destruct (IH (extend evs1 w))
      as (evs2 & vs & counts & Hrest & Hlen & Hc & Hall & Hreqs & Hsleeps).
    exists (evs1 ++ evs2), (v :: vs), (n :: counts).
    split; [|split; [|split; [|split; [|split]]]].
    + cbn [series_apply]. rewrite (bind_ret _ _ _ _ _ Hrun).
      rewrite (bind_ret _ _ _ _ _ Hrest). by rewrite extend_extend.
    + simpl. by rewrite Hlen.
    + simpl. by rewrite Hc.
    + by constructor.
    + rewrite requests_of_app, Hreq, Hreqs. by rewrite fmap_cons, repeat_each_cons.
    + rewrite sleeps_of_app, sum_list_app. cbn [length]. lia.
Qed.

Lemma compare_adjacent_shape client prompt rest : forall prev w,
  exists evs rs counts,
    compare_adjacent client prompt prev rest w = (extend evs w, Ret rs) /\
    length counts = length rest /\
    Forall (fun n => 1 <= n <= 3)%nat counts /\
    requests_of evs = repeat_each counts (pair_requests prompt (prev :: rest)) /\
    0 <= sum_list (sleeps_of evs) <= 3 * Z.of_nat (length rest).
Proof.
  induction rest as [|next rest IH]; intros prev w.
  - exists [], [], []. rewrite extend_nil. repeat split; done.
  - destruct (default_call client prompt (pair_payload prev next) w)
      as (evs1 & v & n & Hrun & _ & Hn & Hreq & Hsleep).
    destruct (IH next (extend evs1 w))
      as (evs2 & vs & counts & Hrest & Hc & Hall & Hreqs & Hsleeps).
    exists (evs1 ++ evs2), (v :: vs), (n :: counts).
    split; [|split; [|split; [|split]]].
    + cbn [compare_adjacent]. rewrite (bind_ret _ _ _ _ _ Hrun).
      rewrite (bind_ret _ _ _ _ _ Hrest). by rewrite extend_extend.
    + simpl. by rewrite Hc.
    + by constructor.
    + rewrite requests_of_app, Hreq, Hreqs.
      by rewrite pair_requests_cons, repeat_each_cons.
    + rewrite sleeps_of_app, sum_list_app. cbn [length]. lia.
Qed.

Lemma process_narrative_pairs_shape narratives client prompt w :
  exists evs results counts,
    process_narrative_pairs narratives client prompt w =
      (extend evs w, Ret results) /\
    length counts = (length narratives - 1)%nat /\
    Forall (fun n => 1 <= n <= 3)%nat counts /\
    requests_of evs = repeat_each counts (pair_requests prompt narratives) /\
    0 <= sum_list (sleeps_of evs) <= 3 * Z.of_nat (length narratives - 1).
Proof.
  rewrite process_narrative_pairs_refines.
  destruct narratives as [|first rest].
  - exists [], [], []. rewrite extend_nil. repeat split; done.
  - destruct (compare_adjacent_shape client prompt rest first w)
      as (evs & rs & counts & Hrun & Hc & Hall & Hreqs & Hsleeps).
    exists evs, (VStr "" :: rs), counts.
    split; [unfold comparator_spec; by rewrite (bind_ret _ _ _ _ _ Hrun)|].
    cbn [length]. rewrite Nat.sub_succ, Nat.sub_0_r. done.
Qed.

(** X5.  Whatever the capability does, the comparator over [N]
    annotations asks about the adjacent pairs in row order, each pair one
    to three times in a row, and about nothing else: between [N - 1] and
    [3 (N - 1)] requests, and at most [3 (N - 1)] seconds slept. *)
Theorem comparator_requests narratives client prompt w :
  exists evs results counts,
    process_narrative_pairs narratives client prompt w =
      (extend evs w, Ret results) /\
    length counts = length (pair_requests prompt narratives) /\
    Forall (fun n => 1 <= n <= 3)%nat counts /\
    requests_of evs = repeat_each counts (pair_requests prompt narratives) /\
    (length narratives - 1 <= length (requests_of evs)
       <= 3 * (length narratives - 1))%nat /\
    0 <= sum_list (sleeps_of evs) <= 3 * Z.of_nat (length narratives - 1).
Proof.
  destruct (process_narrative_pairs_shape narratives client prompt w)
    as (evs & rs & counts & Hrun & Hc & Hall & Hreqs & Hsleeps).
  exists evs, rs, counts. split; [exact Hrun|].
  assert (length counts = length (pair_requests prompt narratives)) as Hlen
    by (by rewrite pair_requests_length).
  split; [done|]. split; [done|]. split; [done|]. split; [|done].
  rewrite Hreqs, <- (pair_requests_length prompt narratives).
  by apply repeat_each_length.
Qed.

(** ** More about the driver *)

Lemma set_column_labels key cells cols :
  (set_column key cells cols).*1 =
  cols.*1 ++ (if bool_decide (key ∈ cols.*1) then [] else [key]).
Proof.
  unfold set_column. case_bool_decide as Hin.
  - rewrite app_nil_r. clear Hin.
    induction cols as [|[label c] cols IH]; [done|].
    rewrite !fmap_cons, IH. cbn [fst]. by case_bool_decide; subst.
  - by rewrite fmap_app.
Qed.

(** X7.  The columns of the written table are those of the table read,
    in their order; a derived column that was there keeps its place, one
    that was not is added at the end, the annotation column before the
    persistence column. *)
Theorem driver_column_order Anthropic path key np cp w df narratives :
  files w !! path = Some df ->
  df_wf df ->
  column_lookup "Narrative" (columns df) = Some narratives ->
  exists w' df',
    process_narratives Anthropic path key np cp w = (w', Ret tt) /\
    files w' !! path = Some df' /\
    labels df' =
      labels df
        ++ (if bool_decide (annotation_column ∈ labels df)
            then [] else [annotation_column])
        ++ (if bool_decide (persistence_column ∈ labels df)
            then [] else [persistence_column]).
Proof.
  intros Hfile Hwf Hcol.
  destruct (process_narratives_run Anthropic path key np cp w df narratives
              Hfile Hwf Hcol)
    as (evs1 & evs2 & ann & pers & _ & _ & _ & _ & Hrun).
  eexists _, _. split; [exact Hrun|]. split; [apply lookup_insert_eq|].
  unfold labels. cbn [columns]. rewrite !set_column_labels, <- app_assoc.
  f_equal. f_equal.
  rewrite (bool_decide_ext _ (persistence_column ∈ (columns df).*1)); [done|].
  rewrite elem_of_app.
  split; [|by left]. intros [H | H]; [done|].
  case_bool_decide; [by apply elem_of_nil in H|].
  by apply list_elem_of_singleton in H.
Qed.

Lemma driver_column_order_witness :
  exists w' df',
    process_narratives (fun _ => echo_client) "stories.tsv" "" "Annotate."
      "Compare." sample_world = (w', Ret tt) /\
    files w' !! "stories.tsv" = Some df' /\
    labels df' =
      labels sample_table
        ++ (if bool_decide (annotation_column ∈ labels sample_table)
            then [] else [annotation_column])
        ++ (if bool_decide (persistence_column ∈ labels sample_table)
            then [] else [persistence_column]).
Proof.
  apply (driver_column_order (fun _ => echo_client) "stories.tsv" "" "Annotate."
           "Compare." sample_world sample_table
           [VStr "A dog slept."; VStr "A cat helped."; VStr "A bird attacked."]).
  - reflexivity.
  - repeat constructor.
  - reflexivity.
Defined.

(** X8.  Whatever the capability does, a run over [N] rows asks first
    about every narrative in row order, each one to three times in a
    row, and then about every adjacent pair of the annotations it
    stored, each one to three times in a row: between [2N - 1] and
    [3 (2N - 1)] requests for [N >= 1], at most [3 (2N - 1)] seconds
    slept, and nothing at all for [N = 0]. *)
Theorem driver_requests Anthropic path key np cp w df narratives :
  files w !! path = Some df ->
  df_wf df ->
  column_lookup "Narrative" (columns df) = Some narratives ->
  exists w' df' annotations evs counts1 counts2,
    process_narratives Anthropic path key np cp w = (w', Ret tt) /\
    files w' !! path = Some df' /\
    column_lookup annotation_column (columns df') = Some annotations /\
    trace w' = trace w ++ evs /\
    requests_of evs =
      repeat_each counts1 (single_request np <$> narratives)
        ++ repeat_each counts2 (pair_requests cp annotations) /\
    length counts1 = nrows df /\
    length counts2 = (nrows df - 1)%nat /\
    Forall (fun n => 1 <= n <= 3)%nat (counts1 ++ counts2) /\
    (nrows df + (nrows df - 1) <= length (requests_of evs)
       <= 3 * (nrows df + (nrows df - 1)))%nat /\
    0 <= sum_list (sleeps_of evs) <= 3 * Z.of_nat (nrows df + (nrows df - 1)) /\
    (nrows df = 0%nat -> evs = []).
Proof.
  intros Hfile Hwf Hcol.
  destruct (process_narratives_run Anthropic path key np cp w df narratives
              Hfile Hwf Hcol)
    as (evs1 & evs2 & ann & pers & Hann & Hpers & Hl1 & Hl2 & Hrun).
  pose proof (df_wf_column df _ _ Hwf Hcol) as Hn.
  destruct (series_apply_shape (Anthropic key) np narratives w)
    as (evs1' & ann' & c1 & Hann' & _ & Hc1 & Hall1 & Hreq1 & Hsl1).
  rewrite Hann in Hann'. injection Hann' as Hevs1 _.
  apply app_inv_head in Hevs1. subst evs1'.
  destruct (process_narrative_pairs_shape ann (Anthropic key) cp (extend evs1 w))
    as (evs2' & pers' & c2 & Hpers' & Hc2 & Hall2 & Hreq2 & Hsl2).
  rewrite Hpers in Hpers'. injection Hpers' as Hevs2 _.
  apply app_inv_head in Hevs2. subst evs2'.
  assert (length (single_request np <$> narratives) = length c1) as Hlen1
    by (by rewrite length_fmap, Hc1).
  assert (length (pair_requests cp ann) = length c2) as Hlen2
    by (by rewrite pair_requests_length, Hc2).
  pose proof (repeat_each_length c1 _ (eq_sym Hlen1) Hall1) as Hb1.
  pose proof (repeat_each_length c2 _ (eq_sym Hlen2) Hall2) as Hb2.
  rewrite length_fmap in Hb1. rewrite pair_requests_length in Hb2.
  eexists _, _, ann, (evs1 ++ evs2), c1, c2. split; [exact Hrun|].
  split; [apply lookup_insert_eq|]. cbn [columns trace].
  split; [by rewrite column_lookup_set_other, column_lookup_set_same|].
  split; [done|].
  split; [by rewrite requests_of_app, Hreq1, Hreq2|].
  split; [lia|]. split; [lia|].
  split; [by apply Forall_app|].
  split; [rewrite requests_of_app, length_app, Hreq1, Hreq2; lia|].
  split; [rewrite sleeps_of_app, sum_list_app; lia|].
  intros Hzero.
  assert (narratives = []) as -> by (apply nil_length_inv; lia).
  assert (ann = []) as -> by (apply nil_length_inv; lia).
  assert ((extend evs1 w, Ret []) = (w, Ret ([] : list Value))) as Heq1
    by (by rewrite <- Hann).
  injection Heq1 as Heq1.
  assert (evs1 = []) as ->.
  { apply (f_equal trace) in Heq1. simpl in Heq1.
    apply (app_inv_head (trace w)). by rewrite app_nil_r. }
  rewrite extend_nil in Hpers.
  assert ((extend evs2 w, Ret pers) = (w, Ret ([] : list Value))) as Heq2
    by (by rewrite <- Hpers).
  injection Heq2 as Heq2 _.
  apply (f_equal trace) in Heq2. simpl in Heq2.
  apply (app_inv_head (trace w)). by rewrite app_nil_r.
Qed.

Lemma driver_requests_witness :
  exists w' df' annotations evs counts1 counts2,
    process_narratives (fun _ => picky_client) "stories.tsv" "" "Annotate."
      "Compare." sample_world = (w', Ret tt) /\
    files w' !! "stories.tsv" = Some df' /\
    column_lookup annotation_column (columns df') = Some annotations /\
    trace w' = trace sample_world ++ evs /\
    requests_of evs =
      repeat_each counts1
        (single_request "Annotate." <$>
           [VStr "A dog slept."; VStr "A cat helped."; VStr "A bird attacked."])
        ++ repeat_each counts2 (pair_requests "Compare." annotations) /\
    length counts1 = nrows sample_table /\
    length counts2 = (nrows sample_table - 1)%nat /\
    Forall (fun n => 1 <= n <= 3)%nat (counts1 ++ counts2) /\
    (nrows sample_table + (nrows sample_table - 1) <= length (requests_of evs)
       <= 3 * (nrows sample_table + (nrows sample_table - 1)))%nat /\
    0 <= sum_list (sleeps_of evs)
      <= 3 * Z.of_nat (nrows sample_table + (nrows sample_table - 1)) /\
    (nrows sample_table = 0%nat -> evs = []).
Proof.
  apply (driver_requests (fun _ => picky_client) "stories.tsv" "" "Annotate."
           "Compare." sample_world sample_table).
  - reflexivity.
  - repeat constructor.
  - reflexivity.
Defined.

(** ** Capabilities that answer by a function of the request *)

Lemma series_apply_answers_by client f prompt cells :
  answers_by client f ->
  forall w, exists evs,
    series_apply (fun x => process_single_narrative x client prompt 3 1) cells w =
      (extend evs w, Ret (annotate_with f prompt cells)).
Proof.
  intros Hf. induction cells as [|x cells IH]; intros w.
  - exists []. by rewrite extend_nil.
  - assert (1 <= 3) as H3 by lia. assert (0 <= 1) as H1 by lia.
    pose proof (process_single_narrative_answers_by x client f prompt 3 1 w
                  Hf H3 H1 (default_sleepable w)) as Hrun.
    revert Hrun. generalize (match f (single_request prompt x) with
      | Returned _ => [EvCreate (single_request prompt x)]
      | Raised _ =>
          failed_attempts (single_request prompt x) 1 1 (Z.to_nat 3 - 1)
            ++ [EvCreate (single_request prompt x)]
      end). intros evs1 Hrun.
    destruct (IH (extend evs1 w)) as [evs2 Hrest].
    exists (evs1 ++ evs2). cbn [series_apply].
    rewrite (bind_ret _ _ _ _ _ Hrun), (bind_ret _ _ _ _ _ Hrest).
    by rewrite extend_extend.
Qed.

Lemma compare_adjacent_answers_by client f prompt rest :
  answers_by client f ->
  forall prev w, exists evs,
    compare_adjacent client prompt prev rest w =
      (extend evs w,
       Ret ((fun req => VStr (text_of (f req)))
              <$> pair_requests prompt (prev :: rest))).
Proof.
  intros Hf. induction rest as [|next rest IH]; intros prev w.
  - exists []. by rewrite extend_nil.
  - assert (1 <= 3) as H3 by lia. assert (0 <= 1) as H1 by lia.
    pose proof (process_single_narrative_answers_by (pair_payload prev next)
                  client f prompt 3 1 w Hf H3 H1 (default_sleepable w)) as Hrun.
    revert Hrun.
    generalize (match f (single_request prompt (pair_payload prev next)) with
      | Returned _ => [EvCreate (single_request prompt (pair_payload prev next))]
      | Raised _ =>
          failed_attempts (single_request prompt (pair_payload prev next)) 1 1
            (Z.to_nat 3 - 1)
            ++ [EvCreate (single_request prompt (pair_payload prev next))]
      end). intros evs1 Hrun.
    destruct (IH next (extend evs1 w)) as [evs2 Hrest].
    exists (evs1 ++ evs2). cbn [compare_adjacent].
    rewrite (bind_ret _ _ _ _ _ Hrun), (bind_ret _ _ _ _ _ Hrest).
    by rewrite extend_extend, pair_requests_cons, fmap_cons.
Qed.

Lemma process_narrative_pairs_answers_by narratives client f prompt w :
  answers_by client f ->
  exists evs,
    process_narrative_pairs narratives client prompt w =
      (extend evs w, Ret (compare_with f prompt narratives)).
Proof.
  intros Hf. rewrite process_narrative_pairs_refines.
  destruct narratives as [|first rest].
  - exists []. by rewrite extend_nil.
  - destruct (compare_adjacent_answers_by client f prompt rest Hf first w)
      as [evs Hrun].
    exists evs. unfold comparator_spec. by rewrite (bind_ret _ _ _ _ _ Hrun).
Qed.

(** X9.  Against a capability whose answer depends on the request alone,
    the comparator's output is a function of its input: the empty string
    for row 0 and, for row [i >= 1], the text answered to the request
    about annotations [i - 1] and [i], or the marker of its failure.  A
    pair whose request fails gets its marker and the other rows get what
    they would have got anyway. *)
Theorem comparator_row_by_row narratives client f prompt w :
  answers_by client f ->
  exists evs results,
    process_narrative_pairs narratives client prompt w =
      (extend evs w, Ret results) /\
    results = compare_with f prompt narratives /\
    (forall i a b,
       narratives !! i = Some a ->
       narratives !! S i = Some b ->
       results !! S i =
         Some (VStr (text_of (f (single_request prompt (pair_payload a b)))))).
Proof.
  intros Hf.
  destruct (process_narrative_pairs_answers_by narratives client f prompt w Hf)
    as [evs Hrun].
  exists evs, (compare_with f prompt narratives).
  split; [exact Hrun|]. split; [done|].
  intros i a b Ha Hb.
  destruct narratives as [|first rest]; [done|].
  change (((fun req => VStr (text_of (f req)))
             <$> zip_with (fun a b => single_request prompt (pair_payload a b))
                   (first :: rest) rest) !! i =
          Some (VStr (text_of (f (single_request prompt (pair_payload a b)))))).
  change (rest !! i = Some b) in Hb.
  by rewrite list_lookup_fmap, lookup_zip_with, Ha, Hb.
Qed.

Lemma comparator_row_by_row_witness :
  exists evs results,
    process_narrative_pairs [VStr "a"; VStr "b"; VStr "c"] picky_client
      "Compare." empty_world = (extend evs empty_world, Ret results) /\
    results = compare_with (picky_client []) "Compare."
                [VStr "a"; VStr "b"; VStr "c"] /\
    (forall i a b,
       [VStr "a"; VStr "b"; VStr "c"] !! i = Some a ->
       [VStr "a"; VStr "b"; VStr "c"] !! S i = Some b ->
       results !! S i =
         Some (VStr (text_of (picky_client []
                                (single_request "Compare." (pair_payload a b)))))).
Proof.
  apply (comparator_row_by_row [VStr "a"; VStr "b"; VStr "c"] picky_client
           (picky_client []) "Compare." empty_world).
  intros tr req. reflexivity.
Defined.

(** X10.  Against a capability whose answer depends on the request
    alone, the table that the driver writes is a function of the table
    it read: row [i] of the annotation column is the answer (text or
    marker) to the request about narrative [i], and the persistence
    column is the comparator's function of that annotation column. *)
Theorem driver_closed_form Anthropic f path key np cp w df narratives :
  answers_by (Anthropic key) f ->
  files w !! path = Some df ->
  df_wf df ->
  column_lookup "Narrative" (columns df) = Some narratives ->
  exists w',
    process_narratives Anthropic path key np cp w = (w', Ret tt) /\
    files w' !! path =
      Some {| nrows := nrows df;
              columns :=
                set_column persistence_column
                  (compare_with f cp (annotate_with f np narratives))
                  (set_column annotation_column
                     (annotate_with f np narratives) (columns df)) |} /\
    (forall i x,
       narratives !! i = Some x ->
       annotate_with f np narratives !! i =
         Some (VStr (text_of (f (single_request np x))))).
Proof.
  intros Hf Hfile Hwf Hcol.
  destruct (process_narratives_run Anthropic path key np cp w df narratives
              Hfile Hwf Hcol)
    as (evs1 & evs2 & ann & pers & Hann & Hpers & _ & _ & Hrun).
  destruct (series_apply_answers_by (Anthropic key) f np narratives Hf w)
    as [evs1' Hann'].
  assert (ann = annotate_with f np narratives) as -> by congruence.
  destruct (process_narrative_pairs_answers_by (annotate_with f np narratives)
              (Anthropic key) f cp (extend evs1 w) Hf) as [evs2' Hpers'].
  assert (pers = compare_with f cp (annotate_with f np narratives)) as ->
    by congruence.
  eexists. split; [exact Hrun|]. split; [apply lookup_insert_eq|].
  intros i x Hx. unfold annotate_with. by rewrite list_lookup_fmap, Hx.
Qed.

Lemma driver_closed_form_witness :
  exists w',
    process_narratives (fun _ => picky_client) "stories.tsv" "" "Annotate."
      "Compare." sample_world = (w', Ret tt) /\
    files w' !! "stories.tsv" =
      Some {| nrows := nrows sample_table;
              columns :=
                set_column persistence_column
                  (compare_with (picky_client []) "Compare."
                     (annotate_with (picky_client []) "Annotate."
                        [VStr "A dog slept."; VStr "A cat helped.";
                         VStr "A bird attacked."]))
                  (set_column annotation_column
                     (annotate_with (picky_client []) "Annotate."
                        [VStr "A dog slept."; VStr "A cat helped.";
                         VStr "A bird attacked."])
                     (columns sample_table)) |} /\
    (forall i x,
       [VStr "A dog slept."; VStr "A cat helped."; VStr "A bird attacked."] !! i
         = Some x ->
       annotate_with (picky_client []) "Annotate."
         [VStr "A dog slept."; VStr "A cat helped."; VStr "A bird attacked."] !! i =
         Some (VStr (text_of (picky_client [] (single_request "Annotate." x))))).
Proof.
  apply (driver_closed_form (fun _ => picky_client) (picky_client [])
           "stories.tsv" "" "Annotate." "Compare." sample_world sample_table).
  - intros tr req. reflexivity.
  - reflexivity.
  - repeat constructor.
  - reflexivity.
Defined.

Example scenario_failed_comparisons :
  (fun df => (column_lookup annotation_column (columns df),
              column_lookup persistence_column (columns df)))
    <$> files (process_narratives (fun _ => picky_client) "stories.tsv" ""
                 "Annotate." "Compare." sample_world).1 !! "stories.tsv" =
  Some (Some [VStr "roles"; VStr "roles"; VStr "roles"],
        Some [VStr ""; VStr "Error: refused"; VStr "Error: refused"]).
Proof. vm_compute. reflexivity. Qed.

(** The annotation pass, call by call: [worlds i] is the world in which
    the call for row [i] starts. *)
Lemma series_apply_worlds client prompt cells : forall w,
  exists (worlds : nat -> World) annotations,
    series_apply (fun x => process_single_narrative x client prompt 3 1) cells w =
      (worlds (length cells), Ret annotations) /\
    worlds 0%nat = w /\
    forall i x,
      cells !! i = Some x ->
      exists v,
        process_single_narrative x client prompt 3 1 (worlds i) =
          (worlds (S i), Ret v) /\
        is_str v /\
        annotations !! i = Some v.
Proof.
  induction cells as [|x cells IH]; intros w.
  - exists (fun _ => w), []. repeat split; try done.
  - destruct (process_single_narrative_answer x client prompt 3 1 w)
      as (evs1 & v & Hrun & Hstr & _); [lia | lia | apply default_sleepable |].
    destruct (IH (extend evs1 w)) as (worlds & vs & Hrest & H0 & Hsteps).
    exists (fun i => match i with O => w | S j => worlds j end), (v :: vs).
    split; [|split; [done|]].
    + cbn [series_apply length]. rewrite (bind_ret _ _ _ _ _ Hrun).
      by rewrite (bind_ret _ _ _ _ _ Hrest).
    + intros [|i] y Hy.
      * injection Hy as <-. exists v. by rewrite H0.
      * destruct (Hsteps i y Hy) as (v' & Hv' & Hstr' & Hvs).
        exists v'. done.
Qed.

(** X11.  Whatever the capability does, row [i] of the annotation column
    that the driver stores is the string that the annotator returned for
    the narrative of row [i], called with the annotation prompt and the
    default retry settings after the calls for the rows before it. *)
Theorem annotation_row_by_row Anthropic path key np cp w df narratives :
  files w !! path = Some df ->
  df_wf df ->
  column_lookup "Narrative" (columns df) = Some narratives ->
  exists w' df' annotations (worlds : nat -> World),
    process_narratives Anthropic path key np cp w = (w', Ret tt) /\
    files w' !! path = Some df' /\
    column_lookup annotation_column (columns df') = Some annotations /\
    worlds 0%nat = w /\
    forall i x,
      narratives !! i = Some x ->
      exists v,
        process_single_narrative x (Anthropic key) np 3 1 (worlds i) =
          (worlds (S i), Ret v) /\
        is_str v /\
        annotations !! i = Some v.
Proof.
  intros Hfile Hwf Hcol.
  destruct (process_narratives_run Anthropic path key np cp w df narratives
              Hfile Hwf Hcol)
    as (evs1 & evs2 & ann & pers & Hann & _ & _ & _ & Hrun).
  destruct (series_apply_worlds (Anthropic key) np narratives w)
    as (worlds & ann' & Hann' & H0 & Hsteps).
  assert (ann' = ann) as -> by congruence.
  eexists _, _, ann, worlds. split; [exact Hrun|].
  split; [apply lookup_insert_eq|]. cbn [columns].
  split; [by rewrite column_lookup_set_other, column_lookup_set_same|].
  split; [done | exact Hsteps].
Qed.

Lemma annotation_row_by_row_witness :
  exists w' df' annotations (worlds : nat -> World),
    process_narratives (fun _ => flaky_client 1 "roles") "stories.tsv" ""
      "Annotate." "Compare." sample_world = (w', Ret tt) /\
    files w' !! "stories.tsv" = Some df' /\
    column_lookup annotation_column (columns df') = Some annotations /\
    worlds 0%nat = sample_world /\
    forall i x,
      [VStr "A dog slept."; VStr "A cat helped."; VStr "A bird attacked."] !! i
        = Some x ->
      exists v,
        process_single_narrative x (flaky_client 1 "roles") "Annotate." 3 1
          (worlds i) = (worlds (S i), Ret v) /\
        is_str v /\
        annotations !! i = Some v.
Proof.
  apply (annotation_row_by_row (fun _ => flaky_client 1 "roles") "stories.tsv" ""
           "Annotate." "Compare." sample_world sample_table).
  - reflexivity.
  - repeat constructor.
  - reflexivity.
Defined.

(** ** Sleeps that [time.sleep] refuses, run *)

Example scenario_sleep_refusals :
  sleep_refusal empty_world (10 ^ 10) =
    Some (OverflowError "timestamp too large to convert to C _PyTime_t") /\
  sleep_refusal empty_world (- 10 ^ 10) =
    Some (OverflowError "timestamp too large to convert to C _PyTime_t") /\
  sleep_refusal empty_world 9223372036 =
    Some (OSError "[Errno 22] Invalid argument") /\
  sleep_refusal empty_world (-1) =
    Some (ValueError "sleep length must be non-negative") /\
  sleep_refusal empty_world 2 = None.
Proof. vm_compute. repeat split. Qed.

Example scenario_huge_delay_raises :
  process_single_narrative (VStr "A dog slept.") (failing_client "boom")
    "Annotate." 3 (10 ^ 10) empty_world =
  (extend [EvCreate (single_request "Annotate." (VStr "A dog slept."))] empty_world,
   Raise (OverflowError "timestamp too large to convert to C _PyTime_t")).
Proof. vm_compute. reflexivity. Qed.
